(** * wallet_dump_masterkey: a shallow embedding of [main] and its properties

    The program under study is [src/tools/wallet_dump_masterkey.cpp]: a
    command-line tool that opens a wallet, checks a candidate master key
    against it and prints every private key in Wallet Import Format.

    The first part of the file holds the definitions.
    - [Bytes]: byte strings and [memory_cleanse].
    - [KeyId]: [CKeyID] and its order; [StdSet]: [std::set<CKeyID>].
    - [Eff]: the effects of the program (the two output streams, the
      buffers that hold the master key, C++ exceptions) as a small monad.
    - [Tool]: the interfaces [main] programs against and [main] itself.
    - [Base58], [Wif], [Verifier]: what the tool links against, as far as
      the specification describes it.
    - [Instances]: concrete collaborators for concrete runs.

    The second part holds the lemmas and theorems, module by module. *)

From Stdlib Require Import String Ascii List Bool Arith ZArith NArith Lia.
From Stdlib Require Import Strings.Byte Sorted Permutation.
Import ListNotations.

Set Implicit Arguments.

(* ===================================================================== *)
(** ** Byte strings *)
(* ===================================================================== *)

Module Bytes.

Definition bytes := list byte.

(** [memory_cleanse(ptr, len)]: the first [len] bytes of the region are
    overwritten with zeros. *)
Definition memory_cleanse (region : bytes) (len : nat) : bytes :=
  repeat x00 (Nat.min len (length region)) ++ skipn len region.

Definition all_zero (region : bytes) : Prop :=
  Forall (fun b => b = x00) region.

Definition is_zero (b : byte) : bool := Byte.eqb b x00.

Fixpoint all_zerob (region : bytes) : bool :=
  match region with
  | [] => true
  | b :: r => is_zero b && all_zerob r
  end.

End Bytes.
Export Bytes.

(* ===================================================================== *)
(** ** Key identifiers and [std::set<CKeyID>] *)
(* ===================================================================== *)

Module KeyId.

(** [CKeyID] is a [uint160]: twenty bytes. *)
Definition CKeyID := bytes.

Definition byte_compare (a b : byte) : comparison :=
  N.compare (Byte.to_N a) (Byte.to_N b).

(** Modelled from the spec: the declaration of [CKeyID] (its
    [operator<]) is not part of the tool's source; the exporter's order
    is "ascending KeyIdentifier byte order", i.e. the lexicographic
    order of the bytes of the identifier. *)
Definition compare (a b : CKeyID) : comparison :=
  list_compare byte_compare a b.

Definition lt (a b : CKeyID) : Prop := compare a b = Lt.

End KeyId.
Export KeyId.

Module StdSet.

(** A [std::set<CKeyID>] is represented by the sequence of insertions
    that built it; the container keeps its elements unique and ordered
    by [KeyId.compare], and a range-[for] visits them in that order. *)
Record t := of_insertions { insertions : list CKeyID }.

Fixpoint insert (x : CKeyID) (s : list CKeyID) : list CKeyID :=
  match s with
  | [] => [x]
  | y :: s' =>
      match KeyId.compare x y with
      | Lt => x :: y :: s'
      | Eq => y :: s'
      | Gt => y :: insert x s'
      end
  end.

(** The elements in iteration order ([begin()] to [end()]). *)
Definition elements (s : t) : list CKeyID :=
  fold_left (fun acc x => insert x acc) (insertions s) [].

Definition ascending (l : list CKeyID) : Prop := StronglySorted KeyId.lt l.

End StdSet.

(* ===================================================================== *)
(** ** Effects *)
(* ===================================================================== *)

Module Eff.

(** What the process does that can be seen from outside, one event per
    statement of [main]. *)
Inductive Event : Type :=
| EvCout (text : string)
| EvCerr (text : string)
| EvECC_Start
| EvECC_Stop
| EvForceSetArg (name value : string)
| EvSelectParams (chain : string)
| EvSoftSetBoolArg (name : string) (value : bool)
| EvCheckDecryptionKey (master_key : bytes) (accept_no_keys : bool).

(** The state of the process: the events so far (oldest first) and the
    two buffers that receive the master key, [mk] (l.99) and
    [vMasterKey] (l.100); [None] before they are constructed. *)
Record World : Type := mkWorld {
  trace : list Event;
  mk : option bytes;
  vMasterKey : option bytes
}.

Definition boot : World :=
  {| trace := []; mk := None; vMasterKey := None |}.

(** A call either returns or throws a [std::exception] ([what()]). *)
Inductive Outcome (A : Type) : Type :=
| Ret (a : A)
| Throw (what : string).
Arguments Throw {A} what.

Definition M (A : Type) : Type := World -> Outcome A * World.

Definition ret {A} (a : A) : M A := fun w => (Ret a, w).

Definition bind {A B} (c : M A) (k : A -> M B) : M B :=
  fun w =>
    match c w with
    | (Ret a, w') => k a w'
    | (Throw e, w') => (Throw e, w')
    end.

(** [try { body } catch (const std::exception& e) { handler }] *)
Definition try_catch {A} (body : M A) (handler : string -> M A) : M A :=
  fun w =>
    match body w with
    | (Ret a, w') => (Ret a, w')
    | (Throw e, w') => handler e w'
    end.

Definition lift {A} (o : Outcome A) : M A := fun w => (o, w).

Definition emit (e : Event) : M unit :=
  fun w => (Ret tt, {| trace := (trace w ++ [e])%list;
                       mk := mk w; vMasterKey := vMasterKey w |}).

Definition set_mk (b : bytes) : M unit :=
  fun w => (Ret tt, {| trace := trace w; mk := Some b;
                       vMasterKey := vMasterKey w |}).

Definition set_vMasterKey (b : bytes) : M unit :=
  fun w => (Ret tt, {| trace := trace w; mk := mk w;
                       vMasterKey := Some b |}).

(** [memory_cleanse(vMasterKey.data(), vMasterKey.size())] *)
Definition cleanse_vMasterKey : M unit :=
  fun w => (Ret tt,
            {| trace := trace w; mk := mk w;
               vMasterKey :=
                 option_map (fun v => memory_cleanse v (length v))
                            (vMasterKey w) |}).

Definition cout (text : string) : M unit := emit (EvCout text).
Definition cerr (text : string) : M unit := emit (EvCerr text).

(** Projections of a trace on the two streams. *)
Fixpoint stdout_of (t : list Event) : list string :=
  match t with
  | [] => []
  | EvCout s :: t' => s :: stdout_of t'
  | _ :: t' => stdout_of t'
  end.

Fixpoint stderr_of (t : list Event) : list string :=
  match t with
  | [] => []
  | EvCerr s :: t' => s :: stderr_of t'
  | _ :: t' => stderr_of t'
  end.

Definition stdout (w : World) : list string := stdout_of (trace w).
Definition stderr (w : World) : list string := stderr_of (trace w).

End Eff.
Export Eff.

Declare Scope eff_scope.
Delimit Scope eff_scope with eff.
Notation "x <- c1 ;; c2" := (bind c1 (fun x => c2))
  (at level 61, c1 at next level, right associativity) : eff_scope.
Notation "c1 ;; c2" := (bind c1 (fun _ => c2))
  (at level 61, right associativity) : eff_scope.

(* ===================================================================== *)
(** ** The tool *)
(* ===================================================================== *)

Module Tool.

Local Open Scope string_scope.
Local Open Scope eff_scope.

Definition LF : string := String "010"%char EmptyString.

(** [CKey]: the secret bytes and the compression flag of its public
    key. *)
Record CKey : Type := mkCKey {
  keydata : bytes;
  fCompressed : bool
}.

Definition CKeyingMaterial := bytes.

(** [ScriptPubKeyMan]: the interface [main] uses.  The object carries
    mutable state ([CheckDecryptionKey] is not [const]); the state is
    passed explicitly.  The key check may throw (the wallet library does
    on a store that decrypts in part only); [GetKeys] and [GetKey] are
    taken to return. *)
Record ScriptPubKeyMan : Type := mkSPKM {
  spk_state : Type;
  spk_init : spk_state;
  CheckDecryptionKey :
    spk_state -> CKeyingMaterial -> bool -> Outcome (bool * spk_state);
  GetKeys : spk_state -> StdSet.t;
  GetKey : spk_state -> CKeyID -> option CKey
}.

Record CWallet : Type := mkCWallet {
  GetLegacyScriptPubKeyMan : option ScriptPubKeyMan;
  GetDescriptorScriptPubKeyMan : forall (internal : bool), option ScriptPubKeyMan
}.

Section Main.

(** Functions of the libraries [main] links against; their code is
    not part of the tool. *)
Variable ParseHex : string -> bytes.
Variable EncodeSecret : CKey -> string.
Variable ToString : CKeyID -> string.
(** Lines 82-85: the wallet database below the data directory is
    opened, a [CWallet] is built on it and loaded; any of the three
    steps may throw. *)
Variable LoadWallet : forall (datadir : string), Outcome CWallet.

Definition ECC_Start : M unit := emit EvECC_Start.
Definition ECC_Stop : M unit := emit EvECC_Stop.

(** Lines 33-38. *)
Definition SetupEnvironmentAndParams (datadir : string) : M unit :=
  emit (EvForceSetArg "-datadir" datadir) ;;
  emit (EvSelectParams "CBaseChainParams::REGTEST").

Definition usage : string :=
  "Usage: wallet_dump_masterkey <path-to-wallet-dat-dir> <64-hex-masterkey>"
    ++ LF ++ "Example: wallet_dump_masterkey C:\btc-testdir 0123...64hex"
    ++ LF.

Definition banner : string :=
  "Master key accepted — dumping private keys (WIF):" ++ LF.

(** Line 140 and line 134: what the loop prints for one identifier. *)
Definition key_line (kid : CKeyID) (key : CKey) : string :=
  "KeyID: " ++ ToString kid ++ "  WIF: " ++ EncodeSecret key ++ LF.

Definition key_warning (kid : CKeyID) : string :=
  "Could not get private key for " ++ ToString kid ++ LF.

Definition line_of (p : CKeyID * CKey) : string := key_line (fst p) (snd p).

(** Lines 104-109. *)
Definition select_spk_man (wallet : CWallet) : option ScriptPubKeyMan :=
  match GetLegacyScriptPubKeyMan wallet with
  | Some _ => GetLegacyScriptPubKeyMan wallet
  | None =>
      match GetDescriptorScriptPubKeyMan wallet false with
      | Some _ => GetDescriptorScriptPubKeyMan wallet false
      | None => None
      end
  end.

(** Line 119: the call is recorded, then made. *)
Definition check_key (spk_man : ScriptPubKeyMan) (st : spk_state spk_man)
           (master_key : CKeyingMaterial) (accept_no_keys : bool)
  : M (bool * spk_state spk_man) :=
  emit (EvCheckDecryptionKey master_key accept_no_keys) ;;
  lift (CheckDecryptionKey spk_man st master_key accept_no_keys).

(** Lines 131-141: the body of the range-[for], over the elements of
    the set in iteration order. *)
Fixpoint dump_keys (spk_man : ScriptPubKeyMan) (st : spk_state spk_man)
         (keys : list CKeyID) : M unit :=
  match keys with
  | [] => ret tt
  | kid :: rest =>
      match GetKey spk_man st kid with
      | None =>
          cerr ("Could not get private key for " ++ ToString kid ++ LF) ;;
          dump_keys spk_man st rest
      | Some key =>
          let wif := EncodeSecret key in
          cout ("KeyID: " ++ ToString kid ++ "  WIF: " ++ wif ++ LF) ;;
          dump_keys spk_man st rest
      end
  end.

(** Lines 98-147: from the conversion of the hex argument on. *)
Definition recover (wallet : CWallet) (hex : string) : M Z :=
  let mk := ParseHex hex in
  set_mk mk ;;
  let vMasterKey : CKeyingMaterial := mk in
  set_vMasterKey vMasterKey ;;
  match select_spk_man wallet with
  | None =>
      cerr ("No ScriptPubKeyMan found in wallet (unexpected for legacy wallet)"
              ++ LF) ;;
      cleanse_vMasterKey ;;
      ECC_Stop ;;
      ret 1%Z
  | Some spk_man =>
      r <- check_key spk_man (spk_init spk_man) vMasterKey true ;;
      let '(ok, st) := r in
      if negb ok then
        cerr ("Master key did NOT decrypt wallet keys (wrong key)" ++ LF) ;;
        cleanse_vMasterKey ;;
        ECC_Stop ;;
        ret 2%Z
      else
        cout banner ;;
        let keys := GetKeys spk_man st in
        dump_keys spk_man st (StdSet.elements keys) ;;
        cleanse_vMasterKey ;;
        ECC_Stop ;;
        cout ("Done." ++ LF) ;;
        ret 0%Z
  end.

(** Lines 79-90: [(load_ok, wallet)] after the [try] block. *)
Definition load (datadir : string) : M (bool * option CWallet) :=
  try_catch
    (w <- lift (LoadWallet datadir) ;; ret (true, Some w))
    (fun what =>
       cerr ("Failed to open wallet: " ++ what ++ LF) ;;
       ret (false, None)).

(** [main(argc, argv)], with [argc = length argv]. *)
Definition main (argv : list string) : M Z :=
  let argc := Z.of_nat (length argv) in
  if (argc <? 3)%Z then
    cerr usage ;;
    ret 1%Z
  else
    let datadir := nth 1 argv "" in
    let hex := nth 2 argv "" in
    if negb (String.length hex =? 64)%nat then
      cerr ("Master key must be 64 hex chars (32 bytes)" ++ LF) ;;
      ret 1%Z
    else
      ECC_Start ;;
      SetupEnvironmentAndParams datadir ;;
      emit (EvSoftSetBoolArg "-fallbackfee" true) ;;
      r <- load datadir ;;
      let '(load_ok, wallet) := r in
      match load_ok, wallet with
      | true, Some wallet => recover wallet hex
      | _, _ =>
          cerr ("Could not load wallet from: " ++ datadir ++ LF) ;;
          ECC_Stop ;;
          ret 1%Z
      end.

(** A run of the process from its start. *)
Definition run (argv : list string) : Outcome Z * World := main argv boot.

(** The keys of a sequence of identifiers that [GetKey] delivers, and
    the identifiers for which it does not. *)
Definition exported (spk_man : ScriptPubKeyMan) (st : spk_state spk_man)
           (keys : list CKeyID) : list (CKeyID * CKey) :=
  flat_map (fun kid => match GetKey spk_man st kid with
                       | Some key => [(kid, key)]
                       | None => []
                       end) keys.

Definition skipped (spk_man : ScriptPubKeyMan) (st : spk_state spk_man)
           (keys : list CKeyID) : list CKeyID :=
  filter (fun kid => match GetKey spk_man st kid with
                     | Some _ => false
                     | None => true
                     end) keys.

(** The events of the loop of lines 131-141. *)
Definition dump_events (spk_man : ScriptPubKeyMan) (st : spk_state spk_man)
           (keys : list CKeyID) : list Event :=
  map (fun kid => match GetKey spk_man st kid with
                  | Some key => EvCout (key_line kid key)
                  | None => EvCerr (key_warning kid)
                  end) keys.

(** The events of lines 57-62. *)
Definition prelude (datadir : string) : list Event :=
  [EvECC_Start;
   EvForceSetArg "-datadir" datadir;
   EvSelectParams "CBaseChainParams::REGTEST";
   EvSoftSetBoolArg "-fallbackfee" true].

Definition no_key_found : string :=
  "No ScriptPubKeyMan found in wallet (unexpected for legacy wallet)" ++ LF.

Definition wrong_key : string :=
  "Master key did NOT decrypt wallet keys (wrong key)" ++ LF.

Definition done : string := "Done." ++ LF.

Definition exit_code (r : Outcome Z * World) : option Z :=
  match fst r with
  | Ret c => Some c
  | Throw _ => None
  end.

(** The run left [main] through an exception nobody caught. *)
Definition uncaught (r : Outcome Z * World) : bool :=
  match fst r with
  | Ret _ => false
  | Throw _ => true
  end.

(** The standard-output statements of the form [KeyID: ... WIF: ...]. *)
Fixpoint starts_with (p s : string) {struct p} : bool :=
  match p, s with
  | EmptyString, _ => true
  | String _ _, EmptyString => false
  | String a p', String b s' => Ascii.eqb a b && starts_with p' s'
  end.

Definition is_key_line (s : string) : bool := starts_with "KeyID: " s.

Definition key_lines (w : World) : list string :=
  filter is_key_line (stdout w).

End Main.

End Tool.

(* ===================================================================== *)
(** ** Base-58 *)
(* ===================================================================== *)

Module Base58.

(** [EncodeSecret] and the base-58 routines it rests on are library
    code outside the tool's source.  Section 6 of the spec names the text
    format "base-58-with-checksum"; this is the usual positional
    encoding: every leading zero byte becomes the first letter of the
    alphabet, the remaining bytes are read as one big-endian number and
    written in base 58. *)

(** Modelled from the spec: the base-58 alphabet of the text format of
    section 6 (the library's table is not in the tool's source). *)
Definition alphabet : list ascii :=
  list_ascii_of_string
    "123456789ABCDEFGHJKLMNPQRSTUVWXYZabcdefghijkmnopqrstuvwxyz".

Definition digit_char (d : N) : ascii := nth (N.to_nat d) alphabet "1"%char.

Fixpoint index_of (c : ascii) (l : list ascii) (i : N) : option N :=
  match l with
  | [] => None
  | a :: l' => if Ascii.eqb c a then Some i else index_of c l' (N.succ i)
  end.

Definition char_digit (c : ascii) : option N := index_of c alphabet 0.

(** Big-endian value of a digit sequence in base [b]. *)
Definition value (b : N) (ds : list N) : N :=
  fold_left (fun acc d => acc * b + d)%N ds 0%N.

Fixpoint digits_fuel (fuel : nat) (b n : N) : list N :=
  match fuel with
  | O => []
  | S fuel' =>
      if (n =? 0)%N then []
      else digits_fuel fuel' b (n / b)%N ++ [(n mod b)%N]
  end.

(** The digits of [n] in base [b], most significant first; none for 0.
    One more step than [n] has bits is always enough. *)
Definition digits (b n : N) : list N :=
  digits_fuel (S (N.to_nat (N.log2 n))) b n.

(** Leading zeros of a digit sequence. *)
Fixpoint leading_zeros (ds : list N) : nat :=
  match ds with
  | 0%N :: ds' => S (leading_zeros ds')
  | _ => O
  end.

Fixpoint strip (ds : list N) : list N :=
  match ds with
  | 0%N :: ds' => strip ds'
  | _ => ds
  end.

Definition byte_of_N (n : N) : byte :=
  match Byte.of_N n with
  | Some b => b
  | None => x00
  end.

(** Modelled from the spec: base-58 encoding of section 6 (the library's
    [EncodeBase58] is not in the tool's source), on digits and on text. *)
Definition encode_digits (data : bytes) : list N :=
  let ds := map Byte.to_N data in
  repeat 0%N (leading_zeros ds) ++ digits 58 (value 256 ds).

(** Modelled from the spec: see [encode_digits]. *)
Definition encode (data : bytes) : string :=
  string_of_list_ascii (map digit_char (encode_digits data)).

Fixpoint read_digits (cs : list ascii) : option (list N) :=
  match cs with
  | [] => Some []
  | c :: cs' =>
      match char_digit c, read_digits cs' with
      | Some d, Some ds => Some (d :: ds)
      | _, _ => None
      end
  end.

(** Modelled from the spec: base-58 decoding, the reading of the same
    notation (the library's [DecodeBase58] is not in the tool's source);
    a character outside the alphabet makes the text unreadable. *)
Definition decode_digits (ds : list N) : bytes :=
  repeat x00 (leading_zeros ds) ++ map byte_of_N (digits 256 (value 58 ds)).

(** Modelled from the spec: see [decode_digits]. *)
Definition decode (text : string) : option bytes :=
  option_map decode_digits (read_digits (list_ascii_of_string text)).

End Base58.

(* ===================================================================== *)
(** ** Wallet Import Format *)
(* ===================================================================== *)

Module Wif.

Section WithHash.

(** The double hash of the target network's conventions. *)
Variable Hash256 : bytes -> bytes.

Definition checksum (payload : bytes) : bytes := firstn 4 (Hash256 payload).

(** Modelled from the spec: section 6, "WIF encoding (bit-exact)":
    [[version_byte][32-byte private scalar][optional 0x01 compression
    flag][4-byte double-hash checksum of preceding bytes]], then base-58. *)
Definition payload (version : byte) (scalar : bytes) (compressed : bool)
  : bytes :=
  version :: scalar ++ (if compressed then [x01] else []).

(** Modelled from the spec: the payload, its checksum, base-58. *)
Definition encode (version : byte) (scalar : bytes) (compressed : bool)
  : string :=
  let p := payload version scalar compressed in
  Base58.encode (p ++ checksum p).

Definition bytes_eqb (a b : bytes) : bool :=
  match KeyId.compare a b with
  | Eq => true
  | _ => false
  end.

(** Modelled from the spec: the inverse reading of the same layout; the
    result is the triple (network tag, private scalar, compression
    flag). *)
Definition decode (text : string) : option (byte * bytes * bool) :=
  match Base58.decode text with
  | None => None
  | Some data =>
      if length data <? 4 then None
      else
        let n := length data - 4 in
        let p := firstn n data in
        if bytes_eqb (skipn n data) (checksum p) then
          match p with
          | [] => None
          | version :: body =>
              if length body =? 32 then Some (version, body, false)
              else if (length body =? 33) && bytes_eqb (skipn 32 body) [x01]
                   then Some (version, firstn 32 body, true)
                   else None
          end
        else None
  end.

(** Modelled from the spec: [EncodeSecret(key)] (library code, not in
    the tool's source) is the WIF encoding of section 6 of the key's
    scalar and compression flag, on a network whose version byte for
    private keys is [version]. *)
Definition EncodeSecret (version : byte) (key : Tool.CKey) : string :=
  encode version (Tool.keydata key) (Tool.fCompressed key).

End WithHash.

End Wif.

(* ===================================================================== *)
(** ** The decryption verifier *)
(* ===================================================================== *)

Module Verifier.

Import Tool.

Record CPubKey : Type := mkCPubKey {
  pub_data : bytes;
  pub_compressed : bool
}.

Definition pub_eqb (a b : CPubKey) : bool :=
  Wif.bytes_eqb (pub_data a) (pub_data b)
  && Bool.eqb (pub_compressed a) (pub_compressed b).

(** Section 3 of the spec: the key identifier, the full public key and
    the ciphertext of the private scalar. *)
Record EncryptedKeyRecord : Type := mkRecord {
  rec_id : CKeyID;
  rec_pubkey : CPubKey;
  rec_ciphertext : bytes
}.

Definition mapping := list (CKeyID * CKey).

Record KeyStore : Type := mkStore {
  encrypted : list EncryptedKeyRecord;
  plaintext : mapping
}.

Inductive VerifyError : Type := WrongKey.

Fixpoint lookup (kid : CKeyID) (m : mapping) : option CKey :=
  match m with
  | [] => None
  | (k, v) :: m' => if Wif.bytes_eqb kid k then Some v else lookup kid m'
  end.

Section WithCipher.

(** The symmetric cipher and the curve are outside the tool and outside
    the spec; they are parameters.  [decrypt] answers [None] when the
    padding of the decrypted blocks is not well formed. *)
Variable encrypt : CKeyingMaterial -> bytes -> bytes -> bytes.
Variable decrypt : CKeyingMaterial -> bytes -> bytes -> option bytes.
Variable iv_of : CPubKey -> bytes.
Variable pubkey_of : bytes -> bool -> CPubKey.
Variable key_id : CPubKey -> CKeyID.

(** The synthetic record of section 8: a known private scalar encrypted
    with a known master key. *)
Definition encrypt_record (master_key : CKeyingMaterial)
           (secret : bytes * bool) : EncryptedKeyRecord :=
  let pub := pubkey_of (fst secret) (snd secret) in
  {| rec_id := key_id pub;
     rec_pubkey := pub;
     rec_ciphertext := encrypt master_key (iv_of pub) (fst secret) |}.

(** Modelled from the spec: section 4.2, step 2, for one record: the
    ciphertext is decrypted with the record's initialization vector; the
    padding must validate and the public key of the recovered scalar
    must be the record's. *)
Definition decrypt_record (master_key : CKeyingMaterial)
           (r : EncryptedKeyRecord) : option CKey :=
  let pub := rec_pubkey r in
  match decrypt master_key (iv_of pub) (rec_ciphertext r) with
  | None => None
  | Some scalar =>
      if pub_eqb (pubkey_of scalar (pub_compressed pub)) pub
      then Some {| keydata := scalar; fCompressed := pub_compressed pub |}
      else None
  end.

(** Modelled from the spec: step 2 over every record; one record that
    does not decode invalidates the key. *)
Fixpoint decrypt_all (master_key : CKeyingMaterial)
         (rs : list EncryptedKeyRecord) : option mapping :=
  match rs with
  | [] => Some []
  | r :: rs' =>
      match decrypt_record master_key r, decrypt_all master_key rs' with
      | Some key, Some m => Some ((rec_id r, key) :: m)
      | _, _ => None
      end
  end.

(** Modelled from the spec: [verify_and_decrypt] of section 4.2, steps
    1 to 3.  The tool calls it as [CheckDecryptionKey]; its code is in
    the wallet library, not in the tool. *)
Definition verify_and_decrypt (store : KeyStore)
           (master_key : CKeyingMaterial) (accept_no_keys : bool)
  : VerifyError + mapping :=
  match encrypted store with
  | [] => if accept_no_keys then inr [] else inl WrongKey
  | rs =>
      match decrypt_all master_key rs with
      | None => inl WrongKey
      | Some m => inr (m ++ plaintext store)
      end
  end.

(** Modelled from the spec: the "ScriptPubKeyMan-equivalent" of the
    glossary, the object that owns the records of a store and the
    decryption logic over them.  Its state is the mapping the verifier
    last returned (empty before any successful check); the exporter
    works on that mapping. *)
Definition manager (store : KeyStore) : ScriptPubKeyMan :=
  {| spk_state := mapping;
     spk_init := [];
     CheckDecryptionKey := fun st master_key accept_no_keys =>
       match verify_and_decrypt store master_key accept_no_keys with
       | inl WrongKey => Ret (false, st)
       | inr m => Ret (true, m)
       end;
     GetKeys := fun st => StdSet.of_insertions (map fst st);
     GetKey := fun st kid => lookup kid st |}.

End WithCipher.

End Verifier.

(* ===================================================================== *)
(** ** Instances for concrete runs *)
(* ===================================================================== *)

(** The theorems below hold for every [ParseHex], [EncodeSecret],
    [ToString], cipher and hash.  Concrete runs need concrete ones; these
    are the simplest that have the shape of the library's. *)
Module Instances.

Import Tool.

Definition hex_value (c : ascii) : option N :=
  let n := N_of_ascii c in
  if (48 <=? n)%N && (n <=? 57)%N then Some (n - 48)%N
  else if (97 <=? n)%N && (n <=? 102)%N then Some (n - 87)%N
  else if (65 <=? n)%N && (n <=? 70)%N then Some (n - 55)%N
  else None.

(** Pairs of hex digits are read up to the first character that is not
    one. *)
Fixpoint parse_hex (cs : list ascii) : bytes :=
  match cs with
  | c1 :: c2 :: rest =>
      match hex_value c1, hex_value c2 with
      | Some h, Some l => Base58.byte_of_N (16 * h + l) :: parse_hex rest
      | _, _ => []
      end
  | _ => []
  end.

Definition ParseHex (text : string) : bytes :=
  parse_hex (list_ascii_of_string text).

Definition hex_digit (n : N) : ascii :=
  nth (N.to_nat n) (list_ascii_of_string "0123456789abcdef") "0"%char.

Definition HexStr (data : bytes) : string :=
  string_of_list_ascii
    (flat_map (fun b => [hex_digit (Byte.to_N b / 16);
                         hex_digit (Byte.to_N b mod 16)]) data).

(** A stand-in for the double hash: thirty-two bytes that depend on the
    input. *)
Definition toy_hash (data : bytes) : bytes :=
  repeat (Base58.byte_of_N (Base58.value 256 (map Byte.to_N data) mod 251)) 32.

Definition EncodeSecret : CKey -> string := Wif.EncodeSecret toy_hash xef.

(** A stand-in cipher: the ciphertext carries the key it was made with,
    and decryption under any other key fails validation. *)
Definition toy_encrypt (k iv scalar : bytes) : bytes := k ++ scalar.

Definition toy_decrypt (k iv cipher : bytes) : option bytes :=
  if Wif.bytes_eqb (firstn (length k) cipher) k
  then Some (skipn (length k) cipher)
  else None.

Definition toy_pubkey (scalar : bytes) (compressed : bool) : Verifier.CPubKey :=
  {| Verifier.pub_data := (if compressed then x02 else x04) :: rev scalar;
     Verifier.pub_compressed := compressed |}.

Definition toy_iv (pub : Verifier.CPubKey) : bytes :=
  firstn 16 (Verifier.pub_data pub).

Definition toy_key_id (pub : Verifier.CPubKey) : CKeyID :=
  firstn 20 (toy_hash (Verifier.pub_data pub) ++ Verifier.pub_data pub).

Definition toy_manager (store : Verifier.KeyStore) : ScriptPubKeyMan :=
  Verifier.manager toy_decrypt toy_iv toy_pubkey store.

Definition toy_record : CKeyingMaterial -> bytes * bool -> Verifier.EncryptedKeyRecord :=
  Verifier.encrypt_record toy_encrypt toy_iv toy_pubkey toy_key_id.

(** A key argument of 64 characters whose first two are not hex
    digits. *)
Definition garbled_hex : string :=
  "zz11111111111111111111111111111111111111111111111111111111111111".

Definition is_hex (c : ascii) : bool :=
  match hex_value c with
  | Some _ => true
  | None => false
  end.

Definition demo_hex : string :=
  "1111111111111111111111111111111111111111111111111111111111111111".

Definition demo_key : bytes := repeat x11 32.

Definition kid_a : CKeyID := repeat x0a 20.
Definition kid_b : CKeyID := repeat x0b 20.
Definition kid_c : CKeyID := repeat x0c 20.

(** A key manager that accepts [demo_key], knows three identifiers,
    inserted out of order and one of them twice, and cannot deliver the
    key of [kid_b]. *)
Definition demo_manager : ScriptPubKeyMan :=
  {| spk_state := bool;
     spk_init := false;
     CheckDecryptionKey := fun st k _ =>
       Ret (Wif.bytes_eqb k demo_key, Wif.bytes_eqb k demo_key);
     GetKeys := fun _ => StdSet.of_insertions [kid_c; kid_a; kid_b; kid_a];
     GetKey := fun st kid =>
       if st && negb (Wif.bytes_eqb kid kid_b)
       then Some {| keydata := kid ++ repeat x01 12; fCompressed := true |}
       else None |}.

(** A key manager whose check throws, as the wallet library does on a
    store in which some keys decrypt and others do not. *)
Definition throwing_manager : ScriptPubKeyMan :=
  {| spk_state := unit;
     spk_init := tt;
     CheckDecryptionKey := fun _ _ _ =>
       Throw "Error unlocking wallet: some keys decrypt but not all. Your wallet file may be corrupt.";
     GetKeys := fun _ => StdSet.of_insertions [];
     GetKey := fun _ _ => None |}.

(** A wallet without any key manager. *)
Definition bare_wallet : CWallet :=
  {| GetLegacyScriptPubKeyMan := None;
     GetDescriptorScriptPubKeyMan := fun _ => None |}.

(** A wallet with one legacy key manager. *)
Definition legacy_wallet (spk_man : ScriptPubKeyMan) : CWallet :=
  {| GetLegacyScriptPubKeyMan := Some spk_man;
     GetDescriptorScriptPubKeyMan := fun _ => None |}.

Definition demo_wallet : CWallet := legacy_wallet demo_manager.

Definition demo_argv : list string :=
  ["wallet_dump_masterkey"%string; "dir"%string; demo_hex].

(** The hex of [demo_key] with its last byte changed. *)
Definition other_hex : string :=
  "1111111111111111111111111111111111111111111111111111111111111110".

(** A store of two records encrypted under [demo_key], and one of none. *)
Definition demo_store : Verifier.KeyStore :=
  {| Verifier.encrypted :=
       map (toy_record demo_key) [(repeat x05 32, true); (repeat x03 32, false)];
     Verifier.plaintext := [] |}.

Definition empty_store : Verifier.KeyStore :=
  {| Verifier.encrypted := []; Verifier.plaintext := [] |}.

(** The tool with the instances above, on a data directory that holds
    the given wallet. *)
Definition run_on (wallet : CWallet) (argv : list string)
  : Outcome Z * World :=
  run ParseHex EncodeSecret HexStr (fun _ => Ret wallet) argv.

End Instances.

(* ===================================================================== *)
(** ** The paths through [main] *)
(* ===================================================================== *)

Module Paths.

Import Tool.
Local Open Scope string_scope.

(** The curve context as a two-state machine over a trace: started by
    [ECC_Start] when stopped, stopped by [ECC_Stop] when started; a second
    start or a stop without a start is an error ([None]).  The result is
    whether the context is running at the end. *)
Fixpoint ecc_run (running : bool) (t : list Event) : option bool :=
  match t with
  | [] => Some running
  | EvECC_Start :: t' => if running then None else ecc_run true t'
  | EvECC_Stop :: t' => if running then ecc_run false t' else None
  | _ :: t' => ecc_run running t'
  end.

(** The calls of the key check in a trace, with their arguments. *)
Fixpoint checks (t : list Event) : list (bytes * bool) :=
  match t with
  | [] => []
  | EvCheckDecryptionKey k a :: t' => (k, a) :: checks t'
  | _ :: t' => checks t'
  end.

Section Classification.

Variable ParseHex : string -> bytes.
Variable EncodeSecret : CKey -> string.
Variable ToString : CKeyID -> string.
Variable LoadWallet : string -> Outcome CWallet.

Definition bad_length : string :=
  "Master key must be 64 hex chars (32 bytes)" ++ LF.

Definition failed_to_open (what : string) : string :=
  "Failed to open wallet: " ++ what ++ LF.

Definition could_not_load (datadir : string) : string :=
  "Could not load wallet from: " ++ datadir ++ LF.

(** The seven ways through [main], each with the conditions the program
    tests on the way and the outcome and final state it reaches. *)
Inductive Path (argv : list string) : Outcome Z * World -> Prop :=
| path_usage :
    length argv < 3 ->
    Path argv
      (Ret 1%Z, {| trace := [EvCerr usage]; mk := None; vMasterKey := None |})
| path_bad_length prog datadir hex extra :
    argv = prog :: datadir :: hex :: extra ->
    String.length hex <> 64 ->
    Path argv
      (Ret 1%Z,
       {| trace := [EvCerr bad_length]; mk := None; vMasterKey := None |})
| path_not_loaded prog datadir hex extra what :
    argv = prog :: datadir :: hex :: extra ->
    String.length hex = 64 ->
    LoadWallet datadir = Throw what ->
    Path argv
      (Ret 1%Z,
       {| trace := (prelude datadir
                    ++ [EvCerr (failed_to_open what);
                        EvCerr (could_not_load datadir);
                        EvECC_Stop])%list;
          mk := None; vMasterKey := None |})
| path_no_manager prog datadir hex extra wallet :
    argv = prog :: datadir :: hex :: extra ->
    String.length hex = 64 ->
    LoadWallet datadir = Ret wallet ->
    select_spk_man wallet = None ->
    Path argv
      (Ret 1%Z,
       {| trace := (prelude datadir
                    ++ [EvCerr no_key_found; EvECC_Stop])%list;
          mk := Some (ParseHex hex);
          vMasterKey := Some (memory_cleanse (ParseHex hex)
                                             (length (ParseHex hex))) |})
| path_throw prog datadir hex extra wallet spk_man what :
    argv = prog :: datadir :: hex :: extra ->
    String.length hex = 64 ->
    LoadWallet datadir = Ret wallet ->
    select_spk_man wallet = Some spk_man ->
    CheckDecryptionKey spk_man (spk_init spk_man) (ParseHex hex) true
      = Throw what ->
    Path argv
      (Throw what,
       {| trace := (prelude datadir
                    ++ [EvCheckDecryptionKey (ParseHex hex) true])%list;
          mk := Some (ParseHex hex);
          vMasterKey := Some (ParseHex hex) |})
| path_wrong_key prog datadir hex extra wallet spk_man st :
    argv = prog :: datadir :: hex :: extra ->
    String.length hex = 64 ->
    LoadWallet datadir = Ret wallet ->
    select_spk_man wallet = Some spk_man ->
    CheckDecryptionKey spk_man (spk_init spk_man) (ParseHex hex) true
      = Ret (false, st) ->
    Path argv
      (Ret 2%Z,
       {| trace := (prelude datadir
                    ++ [EvCheckDecryptionKey (ParseHex hex) true;
                        EvCerr wrong_key; EvECC_Stop])%list;
          mk := Some (ParseHex hex);
          vMasterKey := Some (memory_cleanse (ParseHex hex)
                                             (length (ParseHex hex))) |})
| path_accepted prog datadir hex extra wallet spk_man st :
    argv = prog :: datadir :: hex :: extra ->
    String.length hex = 64 ->
    LoadWallet datadir = Ret wallet ->
    select_spk_man wallet = Some spk_man ->
    CheckDecryptionKey spk_man (spk_init spk_man) (ParseHex hex) true
      = Ret (true, st) ->
    Path argv
      (Ret 0%Z,
       {| trace := (prelude datadir
                    ++ [EvCheckDecryptionKey (ParseHex hex) true;
                        EvCout banner]
                    ++ dump_events EncodeSecret ToString spk_man st
                         (StdSet.elements (GetKeys spk_man st))
                    ++ [EvECC_Stop; EvCout done])%list;
          mk := Some (ParseHex hex);
          vMasterKey := Some (memory_cleanse (ParseHex hex)
                                             (length (ParseHex hex))) |}).

End Classification.

End Paths.

(* ===================================================================== *)
(** * Properties *)
(* ===================================================================== *)

(** ** Byte strings *)

Module BytesFacts.

Lemma all_zero_repeat n : all_zero (repeat x00 n).
Proof.
  unfold all_zero. induction n as [|n IH]; simpl; constructor; auto.
Qed.

Lemma memory_cleanse_length region len :
  length (memory_cleanse region len) = length region.
Proof.
  unfold memory_cleanse.
  rewrite length_app, repeat_length, length_skipn. lia.
Qed.

Lemma memory_cleanse_whole region :
  memory_cleanse region (length region) = repeat x00 (length region).
Proof.
  unfold memory_cleanse.
  rewrite Nat.min_id, skipn_all, app_nil_r. reflexivity.
Qed.

Lemma memory_cleanse_all_zero region :
  all_zero (memory_cleanse region (length region)).
Proof. rewrite memory_cleanse_whole. apply all_zero_repeat. Qed.

Lemma all_zerob_spec region : all_zerob region = true <-> all_zero region.
Proof.
  unfold all_zero. induction region as [|b r IH]; simpl.
  - split; auto.
  - rewrite andb_true_iff, IH. unfold is_zero. split; intros H.
    + destruct H as [Hb Hr]. constructor; auto using Byte.byte_dec_bl.
    + inversion H; subst. auto using Byte.byte_dec_lb.
Qed.

End BytesFacts.
Export BytesFacts.

(** ** The order of key identifiers *)

Module KeyIdFacts.

Lemma to_N_inj a b : Byte.to_N a = Byte.to_N b -> a = b.
Proof.
  intros H. pose proof (Byte.of_to_N a) as Ha.
  rewrite H, Byte.of_to_N in Ha. congruence.
Qed.

Lemma byte_compare_eq a b : byte_compare a b = Eq <-> a = b.
Proof.
  unfold byte_compare. rewrite N.compare_eq_iff. split.
  - apply to_N_inj.
  - congruence.
Qed.

Lemma byte_compare_antisym a b :
  byte_compare b a = CompOpp (byte_compare a b).
Proof. unfold byte_compare. apply N.compare_antisym. Qed.

Lemma byte_compare_trans a b c r :
  byte_compare a b = r -> byte_compare b c = r -> byte_compare a c = r.
Proof.
  unfold byte_compare. destruct r; intros H1 H2.
  - apply N.compare_eq_iff in H1, H2. apply N.compare_eq_iff. congruence.
  - rewrite N.compare_lt_iff in *. lia.
  - rewrite N.compare_gt_iff in *. lia.
Qed.

Lemma compare_eq a b : compare a b = Eq <-> a = b.
Proof. apply list_compare_refl, byte_compare_eq. Qed.

Lemma compare_antisym a b : compare b a = CompOpp (compare a b).
Proof.
  apply list_compare_antisym.
  - apply byte_compare_eq.
  - apply byte_compare_antisym.
Qed.

Lemma compare_trans a b c r :
  compare a b = r -> compare b c = r -> compare a c = r.
Proof.
  apply list_compare_trans.
  - apply byte_compare_eq.
  - apply byte_compare_trans.
  - apply byte_compare_antisym.
Qed.

Lemma lt_irrefl a : ~ lt a a.
Proof.
  unfold lt. intros H.
  rewrite (proj2 (compare_eq a a) eq_refl) in H. discriminate.
Qed.

Lemma lt_trans a b c : lt a b -> lt b c -> lt a c.
Proof. apply compare_trans. Qed.

Lemma lt_asym a b : lt a b -> ~ lt b a.
Proof. intros H1 H2. exact (lt_irrefl (lt_trans H1 H2)). Qed.

Lemma gt_lt a b : compare a b = Gt -> lt b a.
Proof. unfold lt. intros H. rewrite compare_antisym, H. reflexivity. Qed.

End KeyIdFacts.

(** ** [std::set<CKeyID>] *)

Module StdSetFacts.
Import StdSet KeyIdFacts.

Lemma insert_In x y s : In x (insert y s) <-> x = y \/ In x s.
Proof.
  induction s as [|z s IH]; simpl.
  - intuition.
  - destruct (KeyId.compare y z) eqn:E; simpl.
    + apply compare_eq in E. subst. intuition.
    + intuition.
    + rewrite IH. intuition.
Qed.

Lemma insert_ascending x s : ascending s -> ascending (insert x s).
Proof.
  unfold ascending. induction s as [|y s IH]; simpl; intros Hs.
  - repeat constructor.
  - inversion Hs as [|? ? Hs' Hy]; subst.
    destruct (KeyId.compare x y) eqn:E.
    + assumption.
    + constructor; [assumption|]. constructor; [exact E|].
      eapply Forall_impl; [|exact Hy]. intros z Hz. exact (lt_trans E Hz).
    + constructor; [auto|]. apply Forall_forall. intros z Hz.
      apply insert_In in Hz. destruct Hz as [->|Hz].
      * apply gt_lt, E.
      * rewrite Forall_forall in Hy. auto.
Qed.

Lemma fold_insert_In x l acc :
  In x (fold_left (fun a y => insert y a) l acc) <-> In x l \/ In x acc.
Proof.
  revert acc. induction l as [|y l IH]; intros acc; simpl.
  - intuition.
  - rewrite IH, insert_In. intuition.
Qed.

Lemma fold_insert_ascending l acc :
  ascending acc -> ascending (fold_left (fun a y => insert y a) l acc).
Proof.
  revert acc. induction l as [|y l IH]; intros acc H; simpl; auto.
  apply IH, insert_ascending, H.
Qed.

Lemma elements_In x s : In x (elements s) <-> In x (insertions s).
Proof. unfold elements. rewrite fold_insert_In. simpl. intuition. Qed.

Lemma elements_ascending s : ascending (elements s).
Proof. apply fold_insert_ascending. constructor. Qed.

(** An ascending sequence is determined by its members. *)
Lemma ascending_unique l1 l2 :
  ascending l1 -> ascending l2 ->
  (forall x, In x l1 <-> In x l2) -> l1 = l2.
Proof.
  unfold ascending. revert l2.
  induction l1 as [|a l1 IH]; intros l2 H1 H2 Hin.
  - destruct l2 as [|b l2]; [reflexivity|].
    exfalso. apply (Hin b). left. reflexivity.
  - destruct l2 as [|b l2].
    + exfalso. apply (Hin a). left. reflexivity.
    + inversion H1 as [|? ? H1' Ha]; subst.
      inversion H2 as [|? ? H2' Hb]; subst.
      rewrite Forall_forall in Ha, Hb.
      assert (a = b) as ->.
      { destruct (proj1 (Hin a) (or_introl eq_refl)) as [E|E]; [auto|].
        destruct (proj2 (Hin b) (or_introl eq_refl)) as [E'|E']; [auto|].
        exfalso. exact (lt_asym (Ha _ E') (Hb _ E)). }
      f_equal. apply IH; auto.
      intros x. split; intros Hx.
      * destruct (proj1 (Hin x) (or_intror Hx)) as [E|E]; [|exact E].
        subst x. exfalso. exact (lt_irrefl (Ha _ Hx)).
      * destruct (proj2 (Hin x) (or_intror Hx)) as [E|E]; [|exact E].
        subst x. exfalso. exact (lt_irrefl (Hb _ Hx)).
Qed.

Lemma elements_ext s1 s2 :
  (forall x, In x (insertions s1) <-> In x (insertions s2)) ->
  elements s1 = elements s2.
Proof.
  intros H. apply ascending_unique; try apply elements_ascending.
  intros x. rewrite !elements_In. apply H.
Qed.

Lemma elements_permutation l1 l2 :
  Permutation l1 l2 ->
  elements (of_insertions l1) = elements (of_insertions l2).
Proof.
  intros HP. apply elements_ext. simpl. intros x. split.
  - apply Permutation_in, HP.
  - apply Permutation_in, Permutation_sym, HP.
Qed.

Lemma ascending_NoDup l : ascending l -> NoDup l.
Proof.
  unfold ascending. induction 1 as [|a l Hl IH Ha]; constructor; auto.
  intros Hin. rewrite Forall_forall in Ha. exact (lt_irrefl (Ha _ Hin)).
Qed.

End StdSetFacts.

(** ** Streams *)

Module EffFacts.

Lemma stdout_of_app t1 t2 :
  stdout_of (t1 ++ t2) = (stdout_of t1 ++ stdout_of t2)%list.
Proof.
  induction t1 as [|e t1 IH]; simpl; [reflexivity|].
  destruct e; simpl; rewrite IH; reflexivity.
Qed.

Lemma stderr_of_app t1 t2 :
  stderr_of (t1 ++ t2) = (stderr_of t1 ++ stderr_of t2)%list.
Proof.
  induction t1 as [|e t1 IH]; simpl; [reflexivity|].
  destruct e; simpl; rewrite IH; reflexivity.
Qed.

End EffFacts.

(** ** The paths of [main] *)

Module ToolFacts.

Import Tool.
Local Open Scope string_scope.

(** One step of symbolic execution of a monadic program. *)
Ltac eff :=
  unfold check_key, cout, cerr, ECC_Stop, ECC_Start, cleanse_vMasterKey,
    set_mk, set_vMasterKey, emit, lift, ret, bind;
  cbv beta iota delta [negb];
  cbn [trace mk vMasterKey option_map].

Section Paths.

Variable ParseHex : string -> bytes.
Variable EncodeSecret : CKey -> string.
Variable ToString : CKeyID -> string.
Variable LoadWallet : string -> Outcome CWallet.

Local Abbreviation recover := (Tool.recover ParseHex EncodeSecret ToString).
Local Abbreviation dump_keys := (Tool.dump_keys EncodeSecret ToString).
Local Abbreviation dump_events := (Tool.dump_events EncodeSecret ToString).
Local Abbreviation run := (Tool.run ParseHex EncodeSecret ToString LoadWallet).
Local Abbreviation key_line := (Tool.key_line EncodeSecret ToString).
Local Abbreviation key_warning := (Tool.key_warning ToString).

Lemma argc_ge_3 (prog datadir hex : string) (extra : list string) :
  (Z.of_nat (length (prog :: datadir :: hex :: extra)) <? 3)%Z = false.
Proof. apply Z.ltb_ge. simpl length. lia. Qed.

Lemma dump_keys_run spk_man st keys w :
  dump_keys spk_man st keys w =
  (Ret tt, {| trace := (trace w ++ dump_events spk_man st keys)%list;
              mk := mk w; vMasterKey := vMasterKey w |}).
Proof.
  revert w. induction keys as [|kid rest IH]; intros w.
  - simpl. unfold ret. rewrite app_nil_r. destruct w; reflexivity.
  - cbn [Tool.dump_keys Tool.dump_events map].
    destruct (GetKey spk_man st kid) as [key|];
      unfold bind, cout, cerr, emit; rewrite IH; cbn [trace mk vMasterKey];
      rewrite <- app_assoc; reflexivity.
Qed.

Lemma stdout_dump_events spk_man st keys :
  stdout_of (dump_events spk_man st keys) =
  map (fun p => key_line (fst p) (snd p)) (exported spk_man st keys).
Proof.
  induction keys as [|kid rest IH]; [reflexivity|].
  cbn [Tool.dump_events map Tool.exported flat_map].
  destruct (GetKey spk_man st kid); cbn [stdout_of app map fst snd];
    unfold Tool.dump_events, Tool.exported in IH; rewrite IH; reflexivity.
Qed.

Lemma stderr_dump_events spk_man st keys :
  stderr_of (dump_events spk_man st keys) =
  map key_warning (skipped spk_man st keys).
Proof.
  induction keys as [|kid rest IH]; [reflexivity|].
  cbn [Tool.dump_events map Tool.skipped filter].
  destruct (GetKey spk_man st kid); cbn [stderr_of map];
    unfold Tool.dump_events, Tool.skipped in IH; rewrite IH; reflexivity.
Qed.

(** Lines 111-116. *)
Lemma recover_no_manager wallet hex w :
  select_spk_man wallet = None ->
  recover wallet hex w =
  (Ret 1%Z,
   {| trace := (trace w ++ [EvCerr no_key_found; EvECC_Stop])%list;
      mk := Some (ParseHex hex);
      vMasterKey := Some (memory_cleanse (ParseHex hex)
                                         (length (ParseHex hex))) |}).
Proof.
  intros H. unfold Tool.recover. rewrite H. eff.
  rewrite <- app_assoc. reflexivity.
Qed.

(** Line 119, when the call throws. *)
Lemma recover_throw wallet hex w spk_man what :
  select_spk_man wallet = Some spk_man ->
  CheckDecryptionKey spk_man (spk_init spk_man) (ParseHex hex) true
    = Throw what ->
  recover wallet hex w =
  (Throw what,
   {| trace := (trace w ++ [EvCheckDecryptionKey (ParseHex hex) true])%list;
      mk := Some (ParseHex hex);
      vMasterKey := Some (ParseHex hex) |}).
Proof.
  intros H Hc. unfold Tool.recover. rewrite H. eff. rewrite Hc. reflexivity.
Qed.

(** Lines 120-125. *)
Lemma recover_wrong_key wallet hex w spk_man st :
  select_spk_man wallet = Some spk_man ->
  CheckDecryptionKey spk_man (spk_init spk_man) (ParseHex hex) true
    = Ret (false, st) ->
  recover wallet hex w =
  (Ret 2%Z,
   {| trace := (trace w ++ [EvCheckDecryptionKey (ParseHex hex) true;
                            EvCerr wrong_key; EvECC_Stop])%list;
      mk := Some (ParseHex hex);
      vMasterKey := Some (memory_cleanse (ParseHex hex)
                                         (length (ParseHex hex))) |}).
Proof.
  intros H Hc. unfold Tool.recover. rewrite H. eff. rewrite Hc. eff.
  rewrite <- !app_assoc. reflexivity.
Qed.

(** Lines 127-147. *)
Lemma recover_accepted wallet hex w spk_man st :
  select_spk_man wallet = Some spk_man ->
  CheckDecryptionKey spk_man (spk_init spk_man) (ParseHex hex) true
    = Ret (true, st) ->
  recover wallet hex w =
  (Ret 0%Z,
   {| trace := (trace w
                ++ [EvCheckDecryptionKey (ParseHex hex) true; EvCout banner]
                ++ dump_events spk_man st
                     (StdSet.elements (GetKeys spk_man st))
                ++ [EvECC_Stop; EvCout done])%list;
      mk := Some (ParseHex hex);
      vMasterKey := Some (memory_cleanse (ParseHex hex)
                                         (length (ParseHex hex))) |}).
Proof.
  intros H Hc. unfold Tool.recover. rewrite H. eff. rewrite Hc. eff.
  rewrite dump_keys_run. eff.
  rewrite <- !app_assoc. reflexivity.
Qed.

(** Lines 42-96 for a call with the two arguments, a key argument of 64
    characters and a wallet that loads. *)
Lemma run_loaded prog datadir hex extra wallet :
  String.length hex = 64 ->
  LoadWallet datadir = Ret wallet ->
  run (prog :: datadir :: hex :: extra) =
  recover wallet hex
          {| trace := prelude datadir; mk := None; vMasterKey := None |}.
Proof.
  intros Hlen Hload. unfold Tool.run, Tool.main.
  rewrite argc_ge_3. cbn [nth]. rewrite Hlen. cbn [Nat.eqb negb].
  unfold SetupEnvironmentAndParams, load, try_catch. eff. rewrite Hload.
  reflexivity.
Qed.

(** Lines 87-96: the wallet does not load. *)
Lemma run_not_loaded prog datadir hex extra what :
  String.length hex = 64 ->
  LoadWallet datadir = Throw what ->
  run (prog :: datadir :: hex :: extra) =
  (Ret 1%Z,
   {| trace := (prelude datadir
                ++ [EvCerr ("Failed to open wallet: " ++ what ++ LF);
                    EvCerr ("Could not load wallet from: " ++ datadir ++ LF);
                    EvECC_Stop])%list;
      mk := None; vMasterKey := None |}).
Proof.
  intros Hlen Hload. unfold Tool.run, Tool.main.
  rewrite argc_ge_3. cbn [nth]. rewrite Hlen. cbn [Nat.eqb negb].
  unfold SetupEnvironmentAndParams, load, try_catch. eff. rewrite Hload.
  reflexivity.
Qed.

(** Lines 42-46. *)
Lemma run_usage argv :
  length argv < 3 ->
  run argv =
  (Ret 1%Z, {| trace := [EvCerr usage]; mk := None; vMasterKey := None |}).
Proof.
  intros H. unfold Tool.run, Tool.main.
  replace (Z.of_nat (length argv) <? 3)%Z with true
    by (symmetry; apply Z.ltb_lt; lia).
  reflexivity.
Qed.

(** Lines 51-54. *)
Lemma run_bad_length prog datadir hex extra :
  String.length hex <> 64 ->
  run (prog :: datadir :: hex :: extra) =
  (Ret 1%Z,
   {| trace := [EvCerr ("Master key must be 64 hex chars (32 bytes)" ++ LF)];
      mk := None; vMasterKey := None |}).
Proof.
  intros H. unfold Tool.run, Tool.main.
  rewrite argc_ge_3. cbn [nth].
  apply Nat.eqb_neq in H. rewrite H. reflexivity.
Qed.

End Paths.

End ToolFacts.

(** ** Positional notation and base-58 *)

Module Base58Facts.

Import Base58.
Local Open Scope N_scope.

Lemma value_snoc b ds d : value b (ds ++ [d]) = value b ds * b + d.
Proof. unfold value. rewrite fold_left_app. reflexivity. Qed.

Lemma value_zero_cons b ds : value b (0 :: ds) = value b ds.
Proof. reflexivity. Qed.

Lemma value_repeat_zero b z ds : value b (repeat 0 z ++ ds) = value b ds.
Proof. induction z as [|z IH]; [reflexivity|]. simpl repeat. exact IH. Qed.

Lemma value_strip b ds : value b (strip ds) = value b ds.
Proof.
  induction ds as [|d ds IH]; [reflexivity|].
  destruct d; [exact IH | reflexivity].
Qed.

Lemma digits_fuel_zero f b : digits_fuel f b 0 = [].
Proof. destruct f; reflexivity. Qed.

Lemma digits_fuel_more b (Hb : 2 <= b) f :
  forall n f', n < 2 ^ N.of_nat f -> (f <= f')%nat ->
               digits_fuel f b n = digits_fuel f' b n.
Proof.
  induction f as [|f IH]; intros n f' Hn Hf.
  - simpl in Hn. assert (n = 0) as -> by lia.
    rewrite !digits_fuel_zero. reflexivity.
  - destruct f' as [|f']; [lia|]. simpl.
    destruct (n =? 0) eqn:E; [reflexivity|].
    f_equal. apply IH; [|lia].
    rewrite Nat2N.inj_succ, N.pow_succ_r' in Hn.
    apply N.Div0.div_lt_upper_bound.
    eapply N.lt_le_trans; [exact Hn|].
    apply N.mul_le_mono_r. exact Hb.
Qed.

Lemma log2_fuel n : n < 2 ^ N.of_nat (S (N.to_nat (N.log2 n))).
Proof.
  rewrite Nat2N.inj_succ, N2Nat.id.
  destruct (N.eq_dec n 0) as [->|Hn]; [reflexivity|].
  apply N.log2_spec. lia.
Qed.

Lemma digits_fuel_enough b (Hb : 2 <= b) f n :
  n < 2 ^ N.of_nat f -> digits_fuel f b n = digits b n.
Proof.
  intros Hn. unfold digits.
  rewrite (@digits_fuel_more b Hb f n (Nat.max f (S (N.to_nat (N.log2 n)))))
    by (auto; lia).
  symmetry. apply digits_fuel_more; auto using log2_fuel. lia.
Qed.

Lemma digits_0 b : digits b 0 = [].
Proof. reflexivity. Qed.

Lemma digits_step b n :
  2 <= b -> 0 < n -> digits b n = digits b (n / b) ++ [n mod b].
Proof.
  intros Hb Hn. unfold digits at 1. simpl.
  destruct (n =? 0) eqn:E; [apply N.eqb_eq in E; lia|].
  f_equal. apply digits_fuel_enough; [exact Hb|].
  rewrite N2Nat.id.
  apply N.Div0.div_lt_upper_bound.
  eapply N.lt_le_trans; [apply (N.log2_spec n Hn)|].
  rewrite N.pow_succ_r'. apply N.mul_le_mono_r. exact Hb.
Qed.

Lemma value_digits b n : 2 <= b -> value b (digits b n) = n.
Proof.
  intros Hb. induction (N.lt_wf_0 n) as [n _ IH].
  destruct (N.eq_dec n 0) as [->|Hn]; [reflexivity|].
  rewrite digits_step by lia. rewrite value_snoc, IH.
  - rewrite N.mul_comm. symmetry. apply N.div_mod'.
  - apply N.div_lt; lia.
Qed.

Lemma digits_bound b n : 2 <= b -> Forall (fun d => d < b) (digits b n).
Proof.
  intros Hb. induction (N.lt_wf_0 n) as [n _ IH].
  destruct (N.eq_dec n 0) as [->|Hn]; [constructor|].
  rewrite digits_step by lia. apply Forall_app. split.
  - apply IH. apply N.div_lt; lia.
  - constructor; [|constructor]. apply N.mod_lt. lia.
Qed.

Lemma strip_app ds ds' :
  strip (ds ++ ds') =
  match strip ds with
  | [] => strip ds'
  | _ :: _ => strip ds ++ ds'
  end.
Proof.
  induction ds as [|d ds IH]; [reflexivity|].
  destruct d; [exact IH | reflexivity].
Qed.

Lemma strip_nil_value b ds : strip ds = [] -> value b ds = 0.
Proof. intros H. rewrite <- value_strip, H. reflexivity. Qed.

Lemma digits_value b ds :
  2 <= b -> Forall (fun d => d < b) ds -> digits b (value b ds) = strip ds.
Proof.
  intros Hb. induction ds as [|d ds IH] using rev_ind; intros Hds.
  - reflexivity.
  - apply Forall_app in Hds. destruct Hds as [Hds Hd].
    inversion Hd as [|? ? Hdb _]; subst.
    specialize (IH Hds). rewrite value_snoc, strip_app.
    destruct (N.eq_dec (value b ds * b + d) 0) as [E|E].
    + rewrite E. assert (value b ds = 0) as Ev by nia.
      assert (d = 0) as -> by nia.
      rewrite Ev in IH. rewrite <- IH. reflexivity.
    + rewrite digits_step by lia.
      rewrite N.div_add_l, N.div_small, N.add_0_r by lia.
      rewrite N.add_comm, N.Div0.mod_add, N.mod_small by lia.
      rewrite IH. destruct (strip ds) as [|x xs] eqn:Es; [|reflexivity].
      rewrite (strip_nil_value b ds Es) in E.
      destruct d; [lia | reflexivity].
Qed.

Lemma strip_length ds : (length (strip ds) <= length ds)%nat.
Proof.
  induction ds as [|d ds IH]; [simpl; lia|].
  destruct d; simpl; lia.
Qed.

Lemma strip_fixed_leading ds : strip ds = ds -> leading_zeros ds = O.
Proof.
  destruct ds as [|d ds]; [reflexivity|].
  destruct d; [|reflexivity]. simpl. intros H.
  pose proof (strip_length ds) as L. rewrite H in L. simpl in L. lia.
Qed.

Lemma digits_no_leading_zero b n : 2 <= b -> leading_zeros (digits b n) = O.
Proof.
  intros Hb. apply strip_fixed_leading.
  rewrite <- (digits_value Hb (digits_bound n Hb)).
  rewrite value_digits by exact Hb. reflexivity.
Qed.

Lemma leading_zeros_repeat z ds :
  leading_zeros (repeat 0 z ++ ds) = (z + leading_zeros ds)%nat.
Proof. induction z as [|z IH]; simpl; [reflexivity | rewrite IH; reflexivity]. Qed.

Lemma leading_zeros_strip ds : repeat 0 (leading_zeros ds) ++ strip ds = ds.
Proof.
  induction ds as [|d ds IH]; [reflexivity|].
  destruct d; [simpl; rewrite IH; reflexivity | reflexivity].
Qed.

Lemma byte_of_to_N b : byte_of_N (Byte.to_N b) = b.
Proof. unfold byte_of_N. rewrite Byte.of_to_N. reflexivity. Qed.

Lemma map_byte_of_to_N data : map byte_of_N (map Byte.to_N data) = data.
Proof.
  rewrite map_map. rewrite <- (map_id data) at 2.
  apply map_ext. exact byte_of_to_N.
Qed.

Lemma to_N_digits data : Forall (fun d => d < 256) (map Byte.to_N data).
Proof.
  apply Forall_forall. intros d Hd. apply in_map_iff in Hd.
  destruct Hd as [b [<- _]]. pose proof (Byte.to_N_bounded b). lia.
Qed.

(** Reading back the digits that [encode_digits] wrote. *)
Lemma decode_encode_digits data : decode_digits (encode_digits data) = data.
Proof.
  unfold decode_digits, encode_digits.
  rewrite leading_zeros_repeat, digits_no_leading_zero, Nat.add_0_r by lia.
  rewrite value_repeat_zero, value_digits by lia.
  rewrite digits_value by (try lia; apply to_N_digits).
  rewrite <- (map_byte_of_to_N data) at 3.
  rewrite <- (leading_zeros_strip (map Byte.to_N data)) at 3.
  rewrite map_app, map_repeat. reflexivity.
Qed.

Lemma encode_digits_bound data :
  Forall (fun d => d < 58) (encode_digits data).
Proof.
  unfold encode_digits. apply Forall_app. split.
  - apply Forall_forall. intros d Hd. apply repeat_spec in Hd. lia.
  - apply digits_bound. lia.
Qed.

Lemma char_digit_of_nat k :
  (k < 58)%nat -> char_digit (digit_char (N.of_nat k)) = Some (N.of_nat k).
Proof.
  intros H.
  do 58 (destruct k as [|k]; [vm_compute; reflexivity|]).
  lia.
Qed.

Lemma char_digit_char d : d < 58 -> char_digit (digit_char d) = Some d.
Proof.
  intros H. rewrite <- (N2Nat.id d). apply char_digit_of_nat. lia.
Qed.

Lemma read_digits_chars ds :
  Forall (fun d => d < 58) ds -> read_digits (map digit_char ds) = Some ds.
Proof.
  induction 1 as [|d ds Hd _ IH]; [reflexivity|].
  simpl. rewrite (char_digit_char Hd), IH. reflexivity.
Qed.

(** Base-58 decoding inverts base-58 encoding, on every byte string. *)
Lemma decode_encode data : decode (encode data) = Some data.
Proof.
  unfold decode, encode.
  rewrite list_ascii_of_string_of_list_ascii.
  rewrite read_digits_chars by apply encode_digits_bound.
  simpl. rewrite decode_encode_digits. reflexivity.
Qed.

(** Two known answers of the encoding. *)
Example encode_hello :
  encode (map byte_of_ascii (list_ascii_of_string "Hello World!"))
  = "2NEpo7TZRRrLZSi2U"%string.
Proof. vm_compute. reflexivity. Qed.

Example encode_leading_zeros :
  encode [x00; x00; x28; x7f; xb4; xcd] = "11233QC4"%string.
Proof. vm_compute. reflexivity. Qed.

End Base58Facts.

(** ** Wallet Import Format *)

Module WifFacts.

Import Tool.

Lemma bytes_eqb_refl a : Wif.bytes_eqb a a = true.
Proof.
  unfold Wif.bytes_eqb.
  rewrite (proj2 (KeyIdFacts.compare_eq a a) eq_refl). reflexivity.
Qed.

Lemma bytes_eqb_eq a b : Wif.bytes_eqb a b = true <-> a = b.
Proof.
  split; [|intros ->; apply bytes_eqb_refl].
  unfold Wif.bytes_eqb. destruct (KeyId.compare a b) eqn:E; try discriminate.
  intros _. apply KeyIdFacts.compare_eq, E.
Qed.

Lemma checksum_length Hash256 p :
  4 <= length (Hash256 p) -> length (Wif.checksum Hash256 p) = 4.
Proof. intros H. unfold Wif.checksum. rewrite length_firstn. lia. Qed.

Lemma split_payload (p c : bytes) :
  length c = 4 ->
  (length (p ++ c) <? 4) = false
  /\ firstn (length (p ++ c) - 4) (p ++ c) = p
  /\ skipn (length (p ++ c) - 4) (p ++ c) = c.
Proof.
  intros Hc. rewrite length_app, Hc.
  replace (length p + 4 - 4) with (length p) by lia.
  repeat split.
  - apply Nat.ltb_ge. lia.
  - rewrite firstn_app, firstn_all, Nat.sub_diag. simpl. apply app_nil_r.
  - rewrite skipn_app, skipn_all, Nat.sub_diag. reflexivity.
Qed.

(** C6.  Decoding the WIF text that [EncodeSecret] produces for a key
    with a 32-byte private scalar gives back the network tag, exactly the
    private scalar and the compression flag.  The double hash is any
    function that returns at least the four bytes the checksum takes. *)
Theorem wif_round_trip (Hash256 : bytes -> bytes) (version : byte) (key : CKey) :
  (forall p, 4 <= length (Hash256 p)) ->
  length (keydata key) = 32 ->
  Wif.decode Hash256 (Wif.EncodeSecret Hash256 version key)
  = Some (version, keydata key, fCompressed key).
Proof.
  intros Hhash Hlen. destruct key as [scalar compressed]. simpl in Hlen.
  unfold Wif.EncodeSecret, Wif.encode, Wif.decode. cbn [keydata fCompressed].
  rewrite Base58Facts.decode_encode.
  set (p := Wif.payload version scalar compressed).
  destruct (@split_payload p (Wif.checksum Hash256 p)
              (checksum_length Hash256 p (Hhash p))) as (-> & -> & ->).
  rewrite bytes_eqb_refl. subst p. unfold Wif.payload.
  destruct compressed.
  - rewrite length_app, Hlen. cbn [length Nat.add Nat.eqb andb].
    rewrite skipn_app, firstn_app, Hlen, Nat.sub_diag.
    rewrite <- Hlen, skipn_all, firstn_all. simpl. rewrite app_nil_r.
    reflexivity.
  - rewrite app_nil_r, Hlen. reflexivity.
Qed.

(** The round trip on a compressed key of the test network, with the
    stand-in hash. *)
Lemma wif_round_trip_witness :
  Wif.decode Instances.toy_hash
    (Wif.EncodeSecret Instances.toy_hash xef
       {| keydata := repeat x05 32; fCompressed := true |})
  = Some (xef, repeat x05 32, true).
Proof.
  apply (@wif_round_trip Instances.toy_hash xef
           {| keydata := repeat x05 32; fCompressed := true |}).
  - intros p. unfold Instances.toy_hash. rewrite repeat_length. lia.
  - reflexivity.
Defined.

End WifFacts.

(** ** Properties of [main] *)

Module MainProperties.

Import Tool ToolFacts EffFacts StdSetFacts.
Local Open Scope string_scope.

Lemma ascending_filter (f : CKeyID -> bool) l :
  StdSet.ascending l -> StdSet.ascending (filter f l).
Proof.
  unfold StdSet.ascending. induction 1 as [|a l Hl IH Ha]; simpl.
  - constructor.
  - destruct (f a); [|exact IH]. constructor; [exact IH|].
    rewrite Forall_forall in *. intros x Hx.
    apply filter_In in Hx. apply Ha, Hx.
Qed.

Lemma exported_ids spk_man st keys :
  map fst (exported spk_man st keys) =
  filter (fun kid => match GetKey spk_man st kid with
                     | Some _ => true
                     | None => false
                     end) keys.
Proof.
  induction keys as [|kid rest IH]; [reflexivity|].
  cbn [exported flat_map filter].
  destruct (GetKey spk_man st kid); cbn [app map fst];
    unfold exported in IH; rewrite IH; reflexivity.
Qed.

Lemma exported_In spk_man st keys kid key :
  In (kid, key) (exported spk_man st keys) <->
  In kid keys /\ GetKey spk_man st kid = Some key.
Proof.
  unfold exported. rewrite in_flat_map. split.
  - intros [k [Hk Hin]]. destruct (GetKey spk_man st k) eqn:E; [|destruct Hin].
    destruct Hin as [Heq|[]]. inversion Heq; subst. auto.
  - intros [Hk Hg]. exists kid. rewrite Hg. split; [exact Hk | left; reflexivity].
Qed.

Lemma skipped_In spk_man st keys kid :
  In kid (skipped spk_man st keys) <->
  In kid keys /\ GetKey spk_man st kid = None.
Proof.
  unfold skipped. rewrite filter_In.
  destruct (GetKey spk_man st kid); intuition discriminate.
Qed.

Section Runs.

Variable ParseHex : string -> bytes.
Variable EncodeSecret : CKey -> string.
Variable ToString : CKeyID -> string.
Variable LoadWallet : string -> Outcome CWallet.

Local Abbreviation run := (Tool.run ParseHex EncodeSecret ToString LoadWallet).
Local Abbreviation recover := (Tool.recover ParseHex EncodeSecret ToString).
Local Abbreviation key_line := (Tool.key_line EncodeSecret ToString).
Local Abbreviation key_warning := (Tool.key_warning ToString).
Local Abbreviation dump_events := (Tool.dump_events EncodeSecret ToString).
Local Abbreviation line_of := (Tool.line_of EncodeSecret ToString).

Lemma is_key_line_line kid key : is_key_line (key_line kid key) = true.
Proof. reflexivity. Qed.

Lemma filter_key_lines l : filter is_key_line (map line_of l) = map line_of l.
Proof.
  induction l as [|p l IH]; [reflexivity|].
  cbn [map filter]. unfold line_of at 1. rewrite is_key_line_line, IH.
  reflexivity.
Qed.

(** The whole run when the wallet loads and the key check returns
    [true]. *)
Lemma run_accepted prog datadir hex extra wallet spk_man st :
  String.length hex = 64 ->
  LoadWallet datadir = Ret wallet ->
  select_spk_man wallet = Some spk_man ->
  CheckDecryptionKey spk_man (spk_init spk_man) (ParseHex hex) true
    = Ret (true, st) ->
  run (prog :: datadir :: hex :: extra) =
  (Ret 0%Z,
   {| trace := (prelude datadir
                ++ [EvCheckDecryptionKey (ParseHex hex) true; EvCout banner]
                ++ dump_events spk_man st
                     (StdSet.elements (GetKeys spk_man st))
                ++ [EvECC_Stop; EvCout done])%list;
      mk := Some (ParseHex hex);
      vMasterKey := Some (memory_cleanse (ParseHex hex)
                                         (length (ParseHex hex))) |}).
Proof.
  intros Hlen Hload Hsel Hcheck.
  rewrite (@run_loaded ParseHex EncodeSecret ToString LoadWallet
             prog datadir hex extra wallet Hlen Hload).
  rewrite (@recover_accepted ParseHex EncodeSecret ToString wallet hex _
             spk_man st Hsel Hcheck).
  reflexivity.
Qed.

(** The whole run when the key check returns [false]. *)
Lemma run_wrong_key prog datadir hex extra wallet spk_man st :
  String.length hex = 64 ->
  LoadWallet datadir = Ret wallet ->
  select_spk_man wallet = Some spk_man ->
  CheckDecryptionKey spk_man (spk_init spk_man) (ParseHex hex) true
    = Ret (false, st) ->
  run (prog :: datadir :: hex :: extra) =
  (Ret 2%Z,
   {| trace := (prelude datadir
                ++ [EvCheckDecryptionKey (ParseHex hex) true;
                    EvCerr wrong_key; EvECC_Stop])%list;
      mk := Some (ParseHex hex);
      vMasterKey := Some (memory_cleanse (ParseHex hex)
                                         (length (ParseHex hex))) |}).
Proof.
  intros Hlen Hload Hsel Hcheck.
  rewrite (@run_loaded ParseHex EncodeSecret ToString LoadWallet
             prog datadir hex extra wallet Hlen Hload).
  rewrite (@recover_wrong_key ParseHex EncodeSecret ToString wallet hex _
             spk_man st Hsel Hcheck).
  reflexivity.
Qed.

Lemma stdout_accepted datadir k spk_man st keys :
  stdout_of (prelude datadir
             ++ [EvCheckDecryptionKey k true; EvCout banner]
             ++ dump_events spk_man st keys
             ++ [EvECC_Stop; EvCout done])
  = (banner :: map line_of (exported spk_man st keys) ++ [done])%list.
Proof.
  rewrite !stdout_of_app, stdout_dump_events. reflexivity.
Qed.

Lemma stderr_accepted datadir k spk_man st keys :
  stderr_of (prelude datadir
             ++ [EvCheckDecryptionKey k true; EvCout banner]
             ++ dump_events spk_man st keys
             ++ [EvECC_Stop; EvCout done])
  = map key_warning (skipped spk_man st keys).
Proof.
  rewrite !stderr_of_app, stderr_dump_events. simpl. apply app_nil_r.
Qed.

Lemma key_lines_between l :
  filter is_key_line (banner :: map line_of l ++ [done]) = map line_of l.
Proof.
  cbn [filter]. replace (is_key_line banner) with false by reflexivity.
  rewrite filter_app, filter_key_lines. cbn [filter].
  replace (is_key_line done) with false by reflexivity.
  apply app_nil_r.
Qed.

(** C5.  A run in which the wallet loads and the master key is accepted
    exits with code 0, and its standard output is the banner line, then
    one line [KeyID: <id>  WIF: <wif>] for each exported key (no
    identifier twice), then the completion line. *)
Theorem accepted_run_output prog datadir hex extra wallet spk_man st :
  String.length hex = 64 ->
  LoadWallet datadir = Ret wallet ->
  select_spk_man wallet = Some spk_man ->
  CheckDecryptionKey spk_man (spk_init spk_man) (ParseHex hex) true
    = Ret (true, st) ->
  let r := run (prog :: datadir :: hex :: extra) in
  let keys := exported spk_man st (StdSet.elements (GetKeys spk_man st)) in
  exit_code r = Some 0%Z
  /\ stdout (snd r) = (banner :: map line_of keys ++ [done])%list
  /\ key_lines (snd r) = map line_of keys
  /\ length (key_lines (snd r)) = length keys
  /\ NoDup (map fst keys).
Proof.
  intros Hlen Hload Hsel Hcheck r keys. subst r.
  rewrite (@run_accepted prog datadir hex extra wallet spk_man st
             Hlen Hload Hsel Hcheck).
  unfold exit_code, key_lines, stdout. cbn [fst snd trace].
  rewrite stdout_accepted. fold keys.
  rewrite key_lines_between, length_map. repeat split.
  apply ascending_NoDup. subst keys. rewrite exported_ids.
  apply ascending_filter, elements_ascending.
Qed.

(** C4.  When the master key is accepted, every identifier of the set
    whose private key [GetKey] does not deliver is answered by one
    warning on the error stream and no key line; every other identifier
    gets its key line; the loop runs to its end, the completion line is
    printed and the exit code is 0. *)
Theorem failed_key_is_skipped prog datadir hex extra wallet spk_man st :
  String.length hex = 64 ->
  LoadWallet datadir = Ret wallet ->
  select_spk_man wallet = Some spk_man ->
  CheckDecryptionKey spk_man (spk_init spk_man) (ParseHex hex) true
    = Ret (true, st) ->
  let r := run (prog :: datadir :: hex :: extra) in
  let ids := StdSet.elements (GetKeys spk_man st) in
  exit_code r = Some 0%Z
  /\ stderr (snd r) = map key_warning (skipped spk_man st ids)
  /\ stdout (snd r)
     = (banner :: map line_of (exported spk_man st ids) ++ [done])%list
  /\ (forall kid, In kid ids -> GetKey spk_man st kid = None ->
        In (key_warning kid) (stderr (snd r))
        /\ forall key, ~ In (kid, key) (exported spk_man st ids))
  /\ (forall kid key, In kid ids -> GetKey spk_man st kid = Some key ->
        In (key_line kid key) (stdout (snd r))).
Proof.
  intros Hlen Hload Hsel Hcheck r ids. subst r.
  rewrite (@run_accepted prog datadir hex extra wallet spk_man st
             Hlen Hload Hsel Hcheck).
  unfold exit_code, stdout, stderr. cbn [fst snd trace].
  rewrite stdout_accepted, stderr_accepted. fold ids.
  repeat split.
  - apply in_map, skipped_In. auto.
  - intros key Hin. apply exported_In in Hin. destruct Hin as [_ Hin].
    congruence.
  - intros kid key Hin Hget. right. apply in_or_app. left.
    change (key_line kid key) with (line_of (kid, key)).
    apply in_map, exported_In. auto.
Qed.

(** C7.  The key lines appear in ascending order of the key identifiers'
    bytes, whatever the order in which the identifiers were put into the
    set: the sequence visited depends on the members of the set only. *)
Theorem export_order prog datadir hex extra wallet spk_man st :
  String.length hex = 64 ->
  LoadWallet datadir = Ret wallet ->
  select_spk_man wallet = Some spk_man ->
  CheckDecryptionKey spk_man (spk_init spk_man) (ParseHex hex) true
    = Ret (true, st) ->
  let r := run (prog :: datadir :: hex :: extra) in
  let ids := StdSet.elements (GetKeys spk_man st) in
  key_lines (snd r) = map line_of (exported spk_man st ids)
  /\ StdSet.ascending (map fst (exported spk_man st ids))
  /\ (forall other : StdSet.t,
        (forall kid, In kid (StdSet.insertions other)
                     <-> In kid (StdSet.insertions (GetKeys spk_man st))) ->
        StdSet.elements other = ids).
Proof.
  intros Hlen Hload Hsel Hcheck r ids. subst r.
  rewrite (@run_accepted prog datadir hex extra wallet spk_man st
             Hlen Hload Hsel Hcheck).
  unfold key_lines, stdout. cbn [snd trace].
  rewrite stdout_accepted. fold ids.
  repeat split.
  - apply key_lines_between.
  - rewrite exported_ids. apply ascending_filter, elements_ascending.
  - intros other Hsame. apply elements_ext, Hsame.
Qed.

(** C8.  The key manager is the legacy one whenever the wallet has one,
    and the descriptor-based one (external chain) only when it has none;
    with a legacy manager present the rest of the run does not depend on
    the descriptor-based managers at all. *)
Theorem legacy_manager_preferred wallet :
  select_spk_man wallet =
  match GetLegacyScriptPubKeyMan wallet with
  | Some legacy => Some legacy
  | None => GetDescriptorScriptPubKeyMan wallet false
  end
  /\ forall legacy descriptor descriptor' hex w,
       recover {| GetLegacyScriptPubKeyMan := Some legacy;
                  GetDescriptorScriptPubKeyMan := descriptor |} hex w
       = recover {| GetLegacyScriptPubKeyMan := Some legacy;
                    GetDescriptorScriptPubKeyMan := descriptor' |} hex w.
Proof.
  split.
  - unfold select_spk_man.
    destruct (GetLegacyScriptPubKeyMan wallet); [reflexivity|].
    destruct (GetDescriptorScriptPubKeyMan wallet false); reflexivity.
  - reflexivity.
Qed.

(** C9.  The key argument is checked for its length only.  The argument
    [garbled_hex] has 64 characters, two of them no hex digits; with it
    the program prints neither usage message and does not exit with
    code 1: it converts the argument with [ParseHex] and calls the key
    check on whatever bytes that returned, of whatever length. *)
Theorem hex_content_not_validated prog datadir extra wallet spk_man :
  LoadWallet datadir = Ret wallet ->
  select_spk_man wallet = Some spk_man ->
  let hex := Instances.garbled_hex in
  let r := run (prog :: datadir :: hex :: extra) in
  String.length hex = 64
  /\ existsb (fun c => negb (Instances.is_hex c)) (list_ascii_of_string hex)
     = true
  /\ firstn 5 (trace (snd r))
     = (prelude datadir ++ [EvCheckDecryptionKey (ParseHex hex) true])%list
  /\ exit_code r <> Some 1%Z
  /\ mk (snd r) = Some (ParseHex hex)
  /\ (forall k, ParseHex hex = k ->
        In (EvCheckDecryptionKey k true) (trace (snd r))).
Proof.
  intros Hload Hsel hex r.
  assert (String.length hex = 64) as Hlen by reflexivity.
  assert (firstn 5 (trace (snd r))
          = (prelude datadir ++ [EvCheckDecryptionKey (ParseHex hex) true])%list
          /\ exit_code r <> Some 1%Z
          /\ mk (snd r) = Some (ParseHex hex)) as (Htrace & Hexit & Hmk).
  { subst r.
    rewrite (@run_loaded ParseHex EncodeSecret ToString LoadWallet
               prog datadir hex extra wallet Hlen Hload).
    destruct (CheckDecryptionKey spk_man (spk_init spk_man) (ParseHex hex) true)
      as [[[|] st]|what] eqn:Hcheck.
    - rewrite (@recover_accepted ParseHex EncodeSecret ToString wallet hex _
                 spk_man st Hsel Hcheck).
      repeat split; try reflexivity; discriminate.
    - rewrite (@recover_wrong_key ParseHex EncodeSecret ToString wallet hex _
                 spk_man st Hsel Hcheck).
      repeat split; try reflexivity; discriminate.
    - rewrite (@recover_throw ParseHex EncodeSecret ToString wallet hex _
                 spk_man what Hsel Hcheck).
      repeat split; try reflexivity; discriminate. }
  repeat split; try assumption; try reflexivity.
  intros k <-.
  rewrite <- (firstn_skipn 5 (trace (snd r))), Htrace.
  apply in_or_app. left. apply in_or_app. right. left. reflexivity.
Qed.

(** C10.  If the wallet has neither a legacy nor a descriptor-based key
    manager, the program prints the error message on the error stream,
    overwrites [vMasterKey] with zeros, stops the curve context and exits
    with code 1; nothing is written to the standard output. *)
Theorem no_manager_exit prog datadir hex extra wallet :
  String.length hex = 64 ->
  LoadWallet datadir = Ret wallet ->
  GetLegacyScriptPubKeyMan wallet = None ->
  GetDescriptorScriptPubKeyMan wallet false = None ->
  let r := run (prog :: datadir :: hex :: extra) in
  exit_code r = Some 1%Z
  /\ trace (snd r) = (prelude datadir ++ [EvCerr no_key_found; EvECC_Stop])%list
  /\ stderr (snd r) = [no_key_found]
  /\ stdout (snd r) = []
  /\ key_lines (snd r) = []
  /\ vMasterKey (snd r) = Some (repeat x00 (length (ParseHex hex))).
Proof.
  intros Hlen Hload Hleg Hdesc r. subst r.
  assert (select_spk_man wallet = None) as Hsel.
  { unfold select_spk_man. rewrite Hleg, Hdesc. reflexivity. }
  rewrite (@run_loaded ParseHex EncodeSecret ToString LoadWallet
             prog datadir hex extra wallet Hlen Hload).
  rewrite (@recover_no_manager ParseHex EncodeSecret ToString wallet hex _ Hsel).
  unfold exit_code, key_lines, stdout, stderr. cbn [fst snd trace vMasterKey].
  rewrite memory_cleanse_whole. repeat split; reflexivity.
Qed.

(** X16.  Whenever [main] returns, on whichever path, and the master key
    had been converted to bytes, the region [vMasterKey] has the length
    of the key and holds zeros only. *)
Theorem master_key_zeroed_on_return argv code w :
  run argv = (Ret code, w) ->
  forall k, mk w = Some k ->
  exists v, vMasterKey w = Some v /\ length v = length k /\ all_zero v.
Proof.
  intros Hrun k Hk.
  assert (forall key,
             mk {| trace := trace w; mk := Some key;
                   vMasterKey := Some (memory_cleanse key (length key)) |}
             = Some k ->
             exists v, Some (memory_cleanse key (length key)) = Some v
                       /\ length v = length k /\ all_zero v) as Hzero.
  { intros key Hkey. cbn [mk] in Hkey. inversion Hkey; subst key.
    exists (memory_cleanse k (length k)). split; [reflexivity|]. split.
    - apply memory_cleanse_length.
    - apply memory_cleanse_all_zero. }
  destruct argv as [|prog [|datadir [|hex extra]]];
    try (rewrite run_usage in Hrun by (simpl; lia);
         inversion Hrun; subst; discriminate).
  destruct (Nat.eq_dec (String.length hex) 64) as [Hlen|Hlen].
  2:{ rewrite run_bad_length in Hrun by exact Hlen.
      inversion Hrun; subst; discriminate. }
  destruct (LoadWallet datadir) as [wallet|what] eqn:Hload.
  2:{ rewrite (@run_not_loaded ParseHex EncodeSecret ToString LoadWallet
                 prog datadir hex extra what Hlen Hload) in Hrun.
      inversion Hrun; subst; discriminate. }
  rewrite (@run_loaded ParseHex EncodeSecret ToString LoadWallet
             prog datadir hex extra wallet Hlen Hload) in Hrun.
  destruct (select_spk_man wallet) as [spk_man|] eqn:Hsel.
  2:{ rewrite (@recover_no_manager ParseHex EncodeSecret ToString
                 wallet hex _ Hsel) in Hrun.
      inversion Hrun; subst. cbn [vMasterKey]. apply Hzero. exact Hk. }
  destruct (CheckDecryptionKey spk_man (spk_init spk_man) (ParseHex hex) true)
    as [[[|] st]|what] eqn:Hcheck.
  - rewrite (@recover_accepted ParseHex EncodeSecret ToString wallet hex _
               spk_man st Hsel Hcheck) in Hrun.
    inversion Hrun; subst. cbn [vMasterKey]. apply Hzero. exact Hk.
  - rewrite (@recover_wrong_key ParseHex EncodeSecret ToString wallet hex _
               spk_man st Hsel Hcheck) in Hrun.
    inversion Hrun; subst. cbn [vMasterKey]. apply Hzero. exact Hk.
  - rewrite (@recover_throw ParseHex EncodeSecret ToString wallet hex _
               spk_man what Hsel Hcheck) in Hrun.
    discriminate.
Qed.

End Runs.

End MainProperties.

(** ** The verifier and the runs it decides *)

Module VerifierProperties.

Import Tool ToolFacts EffFacts Verifier MainProperties.
Local Open Scope string_scope.

Lemma pub_eqb_eq a b : pub_eqb a b = true -> a = b.
Proof.
  unfold pub_eqb. intros H. apply andb_true_iff in H. destruct H as [Hd Hc].
  apply WifFacts.bytes_eqb_eq in Hd. apply Bool.eqb_prop in Hc.
  destruct a, b. simpl in *. congruence.
Qed.

Section Store.

Variable encrypt : CKeyingMaterial -> bytes -> bytes -> bytes.
Variable decrypt : CKeyingMaterial -> bytes -> bytes -> option bytes.
Variable iv_of : CPubKey -> bytes.
Variable pubkey_of : bytes -> bool -> CPubKey.
Variable key_id : CPubKey -> CKeyID.

Variable ParseHex : string -> bytes.
Variable EncodeSecret : CKey -> string.
Variable ToString : CKeyID -> string.
Variable LoadWallet : string -> Outcome CWallet.

Local Abbreviation run := (Tool.run ParseHex EncodeSecret ToString LoadWallet).
Local Abbreviation verify_and_decrypt :=
  (Verifier.verify_and_decrypt decrypt iv_of pubkey_of).
Local Abbreviation manager := (Verifier.manager decrypt iv_of pubkey_of).
Local Abbreviation encrypt_record :=
  (Verifier.encrypt_record encrypt iv_of pubkey_of key_id).
Local Abbreviation decrypt_record :=
  (Verifier.decrypt_record decrypt iv_of pubkey_of).
Local Abbreviation decrypt_all :=
  (Verifier.decrypt_all decrypt iv_of pubkey_of).

(** C3.  For a store without encrypted records the verifier called with
    [accept_no_keys = true] succeeds with the empty mapping, and called
    with [accept_no_keys = false] fails with [WrongKey].  The tool passes
    [true]: it goes on to the export, prints the banner and the
    completion line but no key line, and exits with code 0. *)
Theorem empty_store_policy store master_key prog datadir hex extra wallet :
  encrypted store = [] ->
  String.length hex = 64 ->
  LoadWallet datadir = Ret wallet ->
  select_spk_man wallet = Some (manager store) ->
  verify_and_decrypt store master_key true = inr []
  /\ verify_and_decrypt store master_key false = inl WrongKey
  /\ let r := run (prog :: datadir :: hex :: extra) in
     In (EvCheckDecryptionKey (ParseHex hex) true) (trace (snd r))
     /\ exit_code r = Some 0%Z
     /\ key_lines (snd r) = []
     /\ stdout (snd r) = [banner; done].
Proof.
  intros Henc Hlen Hload Hsel.
  assert (forall k, verify_and_decrypt store k true = inr []) as Hverify.
  { intros k. unfold Verifier.verify_and_decrypt. rewrite Henc. reflexivity. }
  split; [apply Hverify|]. split.
  { unfold Verifier.verify_and_decrypt. rewrite Henc. reflexivity. }
  assert (CheckDecryptionKey (manager store) (spk_init (manager store))
            (ParseHex hex) true = Ret (true, [])) as Hcheck.
  { cbn [CheckDecryptionKey Verifier.manager spk_init].
    rewrite Hverify. reflexivity. }
  intros r. subst r.
  rewrite (@run_accepted ParseHex EncodeSecret ToString LoadWallet
             prog datadir hex extra wallet (manager store) [] Hlen Hload
             Hsel Hcheck).
  unfold exit_code, key_lines, stdout. cbn [fst snd trace].
  repeat split.
  apply in_or_app. right. left. reflexivity.
Qed.

End Store.

End VerifierProperties.

(** ** Concrete runs *)

Module ConcreteRuns.

Import Tool Instances MainProperties VerifierProperties.
Local Open Scope string_scope.

(** The run of [demo_argv] on [demo_wallet]: three identifiers in the
    set, two keys exported, one skipped. *)
Lemma accepted_run_output_witness :
  let r := run_on demo_wallet demo_argv in
  let keys := exported demo_manager true
                (StdSet.elements (GetKeys demo_manager true)) in
  exit_code r = Some 0%Z
  /\ stdout (snd r)
     = (banner :: map (line_of EncodeSecret HexStr) keys ++ [done])%list
  /\ key_lines (snd r) = map (line_of EncodeSecret HexStr) keys
  /\ length (key_lines (snd r)) = length keys
  /\ NoDup (map fst keys).
Proof.
  exact (@accepted_run_output ParseHex EncodeSecret HexStr
           (fun _ => Ret demo_wallet)
           "wallet_dump_masterkey" "dir" demo_hex [] demo_wallet
           demo_manager true eq_refl eq_refl eq_refl eq_refl).
Defined.

Lemma failed_key_is_skipped_witness :
  let r := run_on demo_wallet demo_argv in
  exit_code r = Some 0%Z
  /\ stderr (snd r) = [key_warning HexStr kid_b]
  /\ In (key_warning HexStr kid_b) (stderr (snd r)).
Proof.
  pose proof (@failed_key_is_skipped ParseHex EncodeSecret HexStr
                (fun _ => Ret demo_wallet)
                "wallet_dump_masterkey" "dir" demo_hex [] demo_wallet
                demo_manager true eq_refl eq_refl eq_refl eq_refl)
    as (Hexit & Herr & _ & Hskip & _).
  split; [exact Hexit|]. split; [exact Herr|].
  apply (Hskip kid_b).
  - right. left. reflexivity.
  - reflexivity.
Defined.

Lemma export_order_witness :
  let r := run_on demo_wallet demo_argv in
  let ids := StdSet.elements (GetKeys demo_manager true) in
  ids = [kid_a; kid_b; kid_c]
  /\ map fst (exported demo_manager true ids) = [kid_a; kid_c]
  /\ StdSet.ascending (map fst (exported demo_manager true ids))
  /\ StdSet.elements (StdSet.of_insertions [kid_b; kid_c; kid_a]) = ids.
Proof.
  pose proof (@export_order ParseHex EncodeSecret HexStr
                (fun _ => Ret demo_wallet)
                "wallet_dump_masterkey" "dir" demo_hex [] demo_wallet
                demo_manager true eq_refl eq_refl eq_refl eq_refl)
    as (_ & Hasc & Hany).
  split; [reflexivity|]. split; [reflexivity|]. split; [exact Hasc|].
  apply Hany. intros kid. simpl. intuition.
Defined.

Lemma hex_content_not_validated_witness :
  let r := run_on demo_wallet ["wallet_dump_masterkey"; "dir"; garbled_hex] in
  String.length garbled_hex = 64
  /\ length (ParseHex garbled_hex) = 0
  /\ In (EvCheckDecryptionKey [] true) (trace (snd r)).
Proof.
  pose proof (@hex_content_not_validated ParseHex EncodeSecret HexStr
                (fun _ => Ret demo_wallet)
                "wallet_dump_masterkey" "dir" [] demo_wallet
                demo_manager eq_refl eq_refl)
    as (Hlen & _ & _ & _ & _ & Hcall).
  split; [exact Hlen|]. split; [reflexivity|].
  apply Hcall. reflexivity.
Defined.

Lemma no_manager_exit_witness :
  let r := run_on bare_wallet demo_argv in
  exit_code r = Some 1%Z
  /\ trace (snd r)
     = (prelude "dir" ++ [EvCerr no_key_found; EvECC_Stop])%list
  /\ stderr (snd r) = [no_key_found]
  /\ stdout (snd r) = []
  /\ key_lines (snd r) = []
  /\ vMasterKey (snd r) = Some (repeat x00 (length (ParseHex demo_hex))).
Proof.
  exact (@no_manager_exit ParseHex EncodeSecret HexStr
           (fun _ => Ret bare_wallet)
           "wallet_dump_masterkey" "dir" demo_hex [] bare_wallet
           eq_refl eq_refl eq_refl eq_refl).
Defined.

Lemma master_key_zeroed_on_return_witness :
  exists v,
    vMasterKey (snd (run_on demo_wallet demo_argv)) = Some v
    /\ length v = length demo_key /\ all_zero v.
Proof.
  apply (@master_key_zeroed_on_return ParseHex EncodeSecret HexStr
           (fun _ => Ret demo_wallet) demo_argv
           0%Z (snd (run_on demo_wallet demo_argv))).
  - reflexivity.
  - reflexivity.
Defined.

(** C2.  The program misses the wipe on the exception path: the three
    returns after line 100 each call [memory_cleanse] first, but when the
    key check of line 119 throws, [main] is left by the exception,
    nothing catches it and no statement overwrites [vMasterKey], which
    still holds the master key. *)
Lemma master_key_left_on_throw :
  uncaught (run_on (legacy_wallet throwing_manager) demo_argv) = true
  /\ mk (snd (run_on (legacy_wallet throwing_manager) demo_argv))
     = Some demo_key
  /\ vMasterKey (snd (run_on (legacy_wallet throwing_manager) demo_argv))
     = Some demo_key
  /\ ~ all_zero demo_key.
Proof.
  split; [reflexivity|]. split; [reflexivity|]. split; [reflexivity|].
  intros H. apply all_zerob_spec in H. discriminate H.
Qed.

Lemma empty_store_policy_witness :
  let wallet := legacy_wallet (toy_manager empty_store) in
  let r := run_on wallet demo_argv in
  Verifier.verify_and_decrypt toy_decrypt toy_iv toy_pubkey empty_store
    demo_key true = inr []
  /\ Verifier.verify_and_decrypt toy_decrypt toy_iv toy_pubkey empty_store
       demo_key false = inl Verifier.WrongKey
  /\ In (EvCheckDecryptionKey (ParseHex demo_hex) true) (trace (snd r))
  /\ exit_code r = Some 0%Z
  /\ key_lines (snd r) = []
  /\ stdout (snd r) = [banner; done].
Proof.
  exact (@empty_store_policy toy_decrypt toy_iv toy_pubkey
           ParseHex EncodeSecret HexStr
           (fun _ => Ret (legacy_wallet (toy_manager empty_store)))
           empty_store demo_key
           "wallet_dump_masterkey" "dir" demo_hex []
           (legacy_wallet (toy_manager empty_store))
           eq_refl eq_refl eq_refl eq_refl).
Defined.

End ConcreteRuns.

(** ** Every path of [main] *)

Module PathProperties.

Import Tool ToolFacts EffFacts Paths MainProperties.
Local Open Scope string_scope.

Lemma checks_app t1 t2 : checks (t1 ++ t2) = (checks t1 ++ checks t2)%list.
Proof.
  induction t1 as [|e t1 IH]; [reflexivity|].
  destruct e; simpl; rewrite IH; reflexivity.
Qed.

Section AllPaths.

Variable ParseHex : string -> bytes.
Variable EncodeSecret : CKey -> string.
Variable ToString : CKeyID -> string.
Variable LoadWallet : string -> Outcome CWallet.

Local Abbreviation run := (Tool.run ParseHex EncodeSecret ToString LoadWallet).
Local Abbreviation Path :=
  (Paths.Path ParseHex EncodeSecret ToString LoadWallet).
Local Abbreviation dump_events := (Tool.dump_events EncodeSecret ToString).
Local Abbreviation key_warning := (Tool.key_warning ToString).
Local Abbreviation line_of := (Tool.line_of EncodeSecret ToString).

(** Every run of [main] is one of the seven paths. *)
Lemma run_classified argv : Path argv (run argv).
Proof.
  destruct argv as [|prog [|datadir [|hex extra]]];
    try (rewrite run_usage by (simpl; lia); apply path_usage; simpl; lia).
  destruct (Nat.eq_dec (String.length hex) 64) as [Hlen|Hlen].
  2:{ rewrite run_bad_length by exact Hlen.
      eapply path_bad_length; [reflexivity | exact Hlen]. }
  destruct (LoadWallet datadir) as [wallet|what] eqn:Hload.
  2:{ rewrite (@run_not_loaded ParseHex EncodeSecret ToString LoadWallet
                 prog datadir hex extra what Hlen Hload).
      eapply path_not_loaded; [reflexivity | exact Hlen | exact Hload]. }
  rewrite (@run_loaded ParseHex EncodeSecret ToString LoadWallet
             prog datadir hex extra wallet Hlen Hload).
  destruct (select_spk_man wallet) as [spk_man|] eqn:Hsel.
  2:{ rewrite (@recover_no_manager ParseHex EncodeSecret ToString
                 wallet hex _ Hsel).
      eapply path_no_manager; eauto. }
  destruct (CheckDecryptionKey spk_man (spk_init spk_man) (ParseHex hex) true)
    as [[[|] st]|what] eqn:Hcheck.
  - rewrite (@recover_accepted ParseHex EncodeSecret ToString wallet hex _
               spk_man st Hsel Hcheck).
    eapply path_accepted; eauto.
  - rewrite (@recover_wrong_key ParseHex EncodeSecret ToString wallet hex _
               spk_man st Hsel Hcheck).
    eapply path_wrong_key; eauto.
  - rewrite (@recover_throw ParseHex EncodeSecret ToString wallet hex _
               spk_man what Hsel Hcheck).
    eapply path_throw; eauto.
Qed.

Lemma ecc_run_dump_events running spk_man st keys t :
  ecc_run running (dump_events spk_man st keys ++ t) = ecc_run running t.
Proof.
  induction keys as [|kid rest IH]; [reflexivity|].
  cbn [Tool.dump_events map app].
  destruct (GetKey spk_man st kid); cbn [ecc_run]; exact IH.
Qed.

Lemma checks_dump_events spk_man st keys :
  checks (dump_events spk_man st keys) = [].
Proof.
  induction keys as [|kid rest IH]; [reflexivity|].
  cbn [Tool.dump_events map].
  destruct (GetKey spk_man st kid); cbn [checks]; exact IH.
Qed.

(** Case analysis on the path of [run argv], which is replaced by the
    outcome and state of the path everywhere in the goal. *)
Ltac by_path argv :=
  generalize (run_classified argv);
  generalize (Tool.run ParseHex EncodeSecret ToString LoadWallet argv);
  let r := fresh "r" in
  let HP := fresh "HP" in
  intros r HP; destruct HP.

(** X1.  Called with fewer than two arguments (also with none at all,
    [argc = 0]), the program prints the two-line usage text on the error
    stream and exits with code 1; nothing else happens: nothing on the
    standard output, the curve context is not started and the key
    argument is not converted. *)
Theorem too_few_arguments argv :
  length argv < 3 ->
  exit_code (run argv) = Some 1%Z
  /\ trace (snd (run argv)) = [EvCerr usage]
  /\ stdout (snd (run argv)) = []
  /\ mk (snd (run argv)) = None
  /\ vMasterKey (snd (run argv)) = None.
Proof.
  intros H. rewrite run_usage by exact H. repeat split.
Qed.

(** X2.  A key argument whose length is not 64 is refused before
    anything is initialised: one message on the error stream, exit code
    1, no curve context, no wallet opened, no byte of the argument
    converted; this holds whatever the wallet loader would have done. *)
Theorem key_length_checked_first prog datadir hex extra :
  String.length hex <> 64 ->
  exit_code (run (prog :: datadir :: hex :: extra)) = Some 1%Z
  /\ trace (snd (run (prog :: datadir :: hex :: extra)))
     = [EvCerr bad_length]
  /\ mk (snd (run (prog :: datadir :: hex :: extra))) = None
  /\ vMasterKey (snd (run (prog :: datadir :: hex :: extra))) = None.
Proof.
  intros H. rewrite run_bad_length by exact H. repeat split.
Qed.

(** X3.  When opening or loading the wallet throws, the exception is
    caught: the program reports [what()] and then the data directory on
    the error stream, stops the curve context and exits with code 1.  The
    key argument is never converted to bytes on this path. *)
Theorem wallet_load_failure prog datadir hex extra what :
  String.length hex = 64 ->
  LoadWallet datadir = Throw what ->
  exit_code (run (prog :: datadir :: hex :: extra)) = Some 1%Z
  /\ stderr (snd (run (prog :: datadir :: hex :: extra)))
     = [failed_to_open what; could_not_load datadir]
  /\ stdout (snd (run (prog :: datadir :: hex :: extra))) = []
  /\ ecc_run false (trace (snd (run (prog :: datadir :: hex :: extra))))
     = Some false
  /\ mk (snd (run (prog :: datadir :: hex :: extra))) = None
  /\ vMasterKey (snd (run (prog :: datadir :: hex :: extra))) = None.
Proof.
  intros Hlen Hload.
  rewrite (@run_not_loaded ParseHex EncodeSecret ToString LoadWallet
             prog datadir hex extra what Hlen Hload).
  repeat split.
Qed.

(** X4.  On every run the curve context is used in a well-bracketed way:
    it is never started twice and never stopped without having been
    started; when [main] returns it has been stopped (or was never
    started), and it is left running exactly when [main] is left by an
    exception. *)
Theorem ecc_bracketed argv :
  ecc_run false (trace (snd (run argv))) = Some (uncaught (run argv)).
Proof.
  by_path argv; unfold uncaught; cbn [fst snd trace]; try reflexivity.
  cbn [prelude app ecc_run]. rewrite ecc_run_dump_events. reflexivity.
Qed.

(** X5.  Exit code 0 is returned only when the call had its two
    arguments, the key argument had 64 characters, the wallet loaded, a
    key manager was found and its key check returned [true] on the parsed
    key. *)
Theorem exit_0_only_if_accepted argv :
  exit_code (run argv) = Some 0%Z ->
  exists prog datadir hex extra wallet spk_man st,
    argv = prog :: datadir :: hex :: extra
    /\ String.length hex = 64
    /\ LoadWallet datadir = Ret wallet
    /\ select_spk_man wallet = Some spk_man
    /\ CheckDecryptionKey spk_man (spk_init spk_man) (ParseHex hex) true
       = Ret (true, st).
Proof.
  by_path argv; unfold exit_code; cbn [fst]; intros E; try discriminate E.
  exists prog, datadir, hex, extra, wallet, spk_man, st. auto.
Qed.

(** X6.  Exit code 2 is returned only when the key check itself returned
    [false]: never for a usage error, an unreadable wallet or a wallet
    without key manager. *)
Theorem exit_2_only_if_rejected argv :
  exit_code (run argv) = Some 2%Z ->
  exists prog datadir hex extra wallet spk_man st,
    argv = prog :: datadir :: hex :: extra
    /\ String.length hex = 64
    /\ LoadWallet datadir = Ret wallet
    /\ select_spk_man wallet = Some spk_man
    /\ CheckDecryptionKey spk_man (spk_init spk_man) (ParseHex hex) true
       = Ret (false, st).
Proof.
  by_path argv; unfold exit_code; cbn [fst]; intros E; try discriminate E.
  exists prog, datadir, hex, extra, wallet, spk_man, st. auto.
Qed.

(** X7.  Unless the run ends with exit code 0, nothing at all is written
    to the standard output: no banner, no key line, no completion line,
    on every failure path and also when [main] is left by an
    exception. *)
Theorem stdout_silent_unless_success argv :
  exit_code (run argv) <> Some 0%Z ->
  stdout (snd (run argv)) = [].
Proof.
  by_path argv; unfold exit_code, stdout; cbn [fst snd trace]; intros E;
    try reflexivity.
  congruence.
Qed.

(** X8.  When [main] returns, the exit code is 0, 1 or 2, and a code
    other than 0 always comes with a message on the error stream. *)
Theorem failure_is_reported argv code :
  exit_code (run argv) = Some code ->
  (code = 0 \/ code = 1 \/ code = 2)%Z
  /\ (code <> 0%Z -> stderr (snd (run argv)) <> []).
Proof.
  by_path argv; unfold exit_code, stderr; cbn [fst snd trace]; intros E;
    inversion E; subst; (split; [lia|]); intros Hc;
    try discriminate; try congruence.
Qed.

(** X9.  The key check is called at most once per run, always with
    [accept_no_keys = true] and always on the bytes [ParseHex] made of
    the second argument. *)
Theorem key_checked_once argv :
  checks (trace (snd (run argv))) = []
  \/ checks (trace (snd (run argv))) = [(ParseHex (nth 2 argv ""), true)].
Proof.
  by_path argv; cbn [snd trace]; subst; cbn [nth];
    try (left; reflexivity); right; try reflexivity.
  rewrite !checks_app, checks_dump_events. reflexivity.
Qed.

(** X10.  The temporary [mk] of line 99 is never overwritten: on every
    path on which [vMasterKey] was filled, returning or not, [mk] still
    holds the parsed key bytes when [main] is left, also after
    [vMasterKey] itself was wiped. *)
Theorem parsed_copy_not_wiped argv :
  vMasterKey (snd (run argv)) <> None ->
  mk (snd (run argv)) = Some (ParseHex (nth 2 argv "")).
Proof.
  by_path argv; cbn [snd mk vMasterKey]; intros Hv; subst; cbn [nth];
    try reflexivity; congruence.
Qed.

(** X11.  In an accepted run every identifier of the key set is answered
    exactly once: the number of key lines on the standard output plus the
    number of warnings on the error stream is the number of elements of
    the set. *)
Theorem every_key_answered_once prog datadir hex extra wallet spk_man st :
  String.length hex = 64 ->
  LoadWallet datadir = Ret wallet ->
  select_spk_man wallet = Some spk_man ->
  CheckDecryptionKey spk_man (spk_init spk_man) (ParseHex hex) true
    = Ret (true, st) ->
  length (key_lines (snd (run (prog :: datadir :: hex :: extra))))
  + length (stderr (snd (run (prog :: datadir :: hex :: extra))))
  = length (StdSet.elements (GetKeys spk_man st)).
Proof.
  intros Hlen Hload Hsel Hcheck.
  rewrite (@run_accepted ParseHex EncodeSecret ToString LoadWallet
             prog datadir hex extra wallet spk_man st Hlen Hload Hsel Hcheck).
  unfold key_lines, stdout, stderr. cbn [snd trace].
  rewrite stdout_accepted, stderr_accepted, key_lines_between, !length_map.
  generalize (StdSet.elements (GetKeys spk_man st)) as ids.
  induction ids as [|kid ids IH]; [reflexivity|].
  cbn [exported skipped flat_map filter].
  destruct (GetKey spk_man st kid); cbn [length app];
    unfold exported, skipped in IH; lia.
Qed.

(** X12.  When the key check throws, the exception leaves [main]: there
    is no exit code, nothing is printed on either stream, the curve
    context is not stopped and [vMasterKey] keeps the parsed key. *)
Theorem check_exception_propagates prog datadir hex extra wallet spk_man what :
  String.length hex = 64 ->
  LoadWallet datadir = Ret wallet ->
  select_spk_man wallet = Some spk_man ->
  CheckDecryptionKey spk_man (spk_init spk_man) (ParseHex hex) true
    = Throw what ->
  fst (run (prog :: datadir :: hex :: extra)) = Throw what
  /\ stdout (snd (run (prog :: datadir :: hex :: extra))) = []
  /\ stderr (snd (run (prog :: datadir :: hex :: extra))) = []
  /\ ecc_run false (trace (snd (run (prog :: datadir :: hex :: extra))))
     = Some true
  /\ vMasterKey (snd (run (prog :: datadir :: hex :: extra)))
     = Some (ParseHex hex).
Proof.
  intros Hlen Hload Hsel Hcheck.
  rewrite (@run_loaded ParseHex EncodeSecret ToString LoadWallet
             prog datadir hex extra wallet Hlen Hload).
  rewrite (@recover_throw ParseHex EncodeSecret ToString wallet hex _
             spk_man what Hsel Hcheck).
  repeat split.
Qed.

(** X13.  Only [argv[1]] and [argv[2]] are read: the program name and
    any argument after the second do not change the run; in particular a
    call with more than two arguments is not a usage error. *)
Theorem extra_arguments_ignored prog prog' datadir hex extra extra' :
  run (prog :: datadir :: hex :: extra)
  = run (prog' :: datadir :: hex :: extra').
Proof.
  unfold Tool.run, Tool.main. rewrite !argc_ge_3. reflexivity.
Qed.

(** X14.  Once the two argument checks are passed, the run begins, in
    this order, by starting the curve context, forcing [-datadir] to the
    first argument, selecting the regression-test chain and setting
    [-fallbackfee], whatever happens to the wallet afterwards. *)
Theorem initialisation_order prog datadir hex extra :
  String.length hex = 64 ->
  firstn 4 (trace (snd (run (prog :: datadir :: hex :: extra))))
  = [EvECC_Start;
     EvForceSetArg "-datadir" datadir;
     EvSelectParams "CBaseChainParams::REGTEST";
     EvSoftSetBoolArg "-fallbackfee" true].
Proof.
  intros Hlen.
  generalize (run_classified (prog :: datadir :: hex :: extra)).
  generalize (run (prog :: datadir :: hex :: extra)).
  intros r HP.
  destruct HP as [Hlt| ? ? ? ? E Hne| ? ? ? ? ? E| ? ? ? ? ? E| ? ? ? ? ? ? ? E
                 | ? ? ? ? ? ? ? E| ? ? ? ? ? ? ? E];
    try (simpl in Hlt; lia);
    inversion E; subst; try congruence; reflexivity.
Qed.

(** X15.  When the key check returns [false], the program prints the
    wrong-key message on the error stream and nothing on the standard
    output, overwrites [vMasterKey] with zeros, stops the curve context
    and returns 2. *)
Theorem rejected_key_exit prog datadir hex extra wallet spk_man st :
  String.length hex = 64 ->
  LoadWallet datadir = Ret wallet ->
  select_spk_man wallet = Some spk_man ->
  CheckDecryptionKey spk_man (spk_init spk_man) (ParseHex hex) true
    = Ret (false, st) ->
  exit_code (run (prog :: datadir :: hex :: extra)) = Some 2%Z
  /\ stderr (snd (run (prog :: datadir :: hex :: extra))) = [wrong_key]
  /\ stdout (snd (run (prog :: datadir :: hex :: extra))) = []
  /\ key_lines (snd (run (prog :: datadir :: hex :: extra))) = []
  /\ ecc_run false (trace (snd (run (prog :: datadir :: hex :: extra))))
     = Some false
  /\ vMasterKey (snd (run (prog :: datadir :: hex :: extra)))
     = Some (repeat x00 (length (ParseHex hex))).
Proof.
  intros Hlen Hload Hsel Hcheck.
  rewrite (@run_wrong_key ParseHex EncodeSecret ToString LoadWallet
             prog datadir hex extra wallet spk_man st Hlen Hload Hsel Hcheck).
  unfold exit_code, key_lines, stdout, stderr. cbn [fst snd trace vMasterKey].
  rewrite memory_cleanse_whole. repeat split.
Qed.

End AllPaths.

End PathProperties.

(** ** Concrete runs on the other paths *)

Module MoreRuns.

Import Tool Instances Paths PathProperties.
Local Open Scope string_scope.

(** A data directory whose wallet cannot be opened. *)
Definition no_wallet (datadir : string) : Outcome CWallet :=
  Throw "wallet.dat: No such file or directory".

Definition rejected_argv : list string :=
  ["wallet_dump_masterkey"; "dir"; other_hex].

Lemma too_few_arguments_witness :
  exit_code (run_on demo_wallet ["wallet_dump_masterkey"; "dir"]) = Some 1%Z
  /\ trace (snd (run_on demo_wallet ["wallet_dump_masterkey"; "dir"]))
     = [EvCerr usage]
  /\ stdout (snd (run_on demo_wallet ["wallet_dump_masterkey"; "dir"])) = []
  /\ mk (snd (run_on demo_wallet ["wallet_dump_masterkey"; "dir"])) = None
  /\ vMasterKey (snd (run_on demo_wallet ["wallet_dump_masterkey"; "dir"]))
     = None.
Proof.
  apply (@too_few_arguments ParseHex EncodeSecret HexStr
           (fun _ => Ret demo_wallet) ["wallet_dump_masterkey"; "dir"]).
  simpl. lia.
Defined.

Lemma key_length_checked_first_witness :
  exit_code (run_on demo_wallet ["wallet_dump_masterkey"; "dir"; "1111"])
  = Some 1%Z
  /\ trace (snd (run_on demo_wallet ["wallet_dump_masterkey"; "dir"; "1111"]))
     = [EvCerr bad_length]
  /\ mk (snd (run_on demo_wallet ["wallet_dump_masterkey"; "dir"; "1111"]))
     = None
  /\ vMasterKey
       (snd (run_on demo_wallet ["wallet_dump_masterkey"; "dir"; "1111"]))
     = None.
Proof.
  apply (@key_length_checked_first ParseHex EncodeSecret HexStr
           (fun _ => Ret demo_wallet) "wallet_dump_masterkey" "dir" "1111" []).
  simpl. lia.
Defined.

Lemma wallet_load_failure_witness :
  exit_code (run ParseHex EncodeSecret HexStr no_wallet demo_argv) = Some 1%Z
  /\ stderr (snd (run ParseHex EncodeSecret HexStr no_wallet demo_argv))
     = [failed_to_open "wallet.dat: No such file or directory";
        could_not_load "dir"]
  /\ stdout (snd (run ParseHex EncodeSecret HexStr no_wallet demo_argv)) = []
  /\ ecc_run false
       (trace (snd (run ParseHex EncodeSecret HexStr no_wallet demo_argv)))
     = Some false
  /\ mk (snd (run ParseHex EncodeSecret HexStr no_wallet demo_argv)) = None
  /\ vMasterKey (snd (run ParseHex EncodeSecret HexStr no_wallet demo_argv))
     = None.
Proof.
  exact (@wallet_load_failure ParseHex EncodeSecret HexStr no_wallet
           "wallet_dump_masterkey" "dir" demo_hex []
           "wallet.dat: No such file or directory" eq_refl eq_refl).
Defined.

Lemma exit_0_only_if_accepted_witness :
  exists prog datadir hex extra wallet spk_man st,
    demo_argv = prog :: datadir :: hex :: extra
    /\ String.length hex = 64
    /\ (fun _ : string => Ret demo_wallet) datadir = Ret wallet
    /\ select_spk_man wallet = Some spk_man
    /\ CheckDecryptionKey spk_man (spk_init spk_man) (ParseHex hex) true
       = Ret (true, st).
Proof.
  apply (@exit_0_only_if_accepted ParseHex EncodeSecret HexStr
           (fun _ => Ret demo_wallet) demo_argv).
  reflexivity.
Defined.

Lemma exit_2_only_if_rejected_witness :
  exists prog datadir hex extra wallet spk_man st,
    rejected_argv = prog :: datadir :: hex :: extra
    /\ String.length hex = 64
    /\ (fun _ : string => Ret demo_wallet) datadir = Ret wallet
    /\ select_spk_man wallet = Some spk_man
    /\ CheckDecryptionKey spk_man (spk_init spk_man) (ParseHex hex) true
       = Ret (false, st).
Proof.
  apply (@exit_2_only_if_rejected ParseHex EncodeSecret HexStr
           (fun _ => Ret demo_wallet) rejected_argv).
  reflexivity.
Defined.

Lemma stdout_silent_unless_success_witness :
  stdout (snd (run_on demo_wallet rejected_argv)) = [].
Proof.
  apply (@stdout_silent_unless_success ParseHex EncodeSecret HexStr
           (fun _ => Ret demo_wallet) rejected_argv).
  vm_compute. discriminate.
Defined.

Lemma failure_is_reported_witness :
  (2 = 0 \/ 2 = 1 \/ 2 = 2)%Z
  /\ (2%Z <> 0%Z -> stderr (snd (run_on demo_wallet rejected_argv)) <> []).
Proof.
  apply (@failure_is_reported ParseHex EncodeSecret HexStr
           (fun _ => Ret demo_wallet) rejected_argv 2%Z).
  reflexivity.
Defined.

Lemma parsed_copy_not_wiped_witness :
  mk (snd (run_on demo_wallet demo_argv)) = Some (ParseHex demo_hex).
Proof.
  apply (@parsed_copy_not_wiped ParseHex EncodeSecret HexStr
           (fun _ => Ret demo_wallet) demo_argv).
  vm_compute. discriminate.
Defined.

Lemma every_key_answered_once_witness :
  length (key_lines (snd (run_on demo_wallet demo_argv)))
  + length (stderr (snd (run_on demo_wallet demo_argv)))
  = length (StdSet.elements (GetKeys demo_manager true)).
Proof.
  exact (@every_key_answered_once ParseHex EncodeSecret HexStr
           (fun _ => Ret demo_wallet)
           "wallet_dump_masterkey" "dir" demo_hex [] demo_wallet
           demo_manager true eq_refl eq_refl eq_refl eq_refl).
Defined.

Lemma check_exception_propagates_witness :
  fst (run_on (legacy_wallet throwing_manager) demo_argv)
  = Throw "Error unlocking wallet: some keys decrypt but not all. Your wallet file may be corrupt."
  /\ stdout (snd (run_on (legacy_wallet throwing_manager) demo_argv)) = []
  /\ stderr (snd (run_on (legacy_wallet throwing_manager) demo_argv)) = []
  /\ ecc_run false
       (trace (snd (run_on (legacy_wallet throwing_manager) demo_argv)))
     = Some true
  /\ vMasterKey (snd (run_on (legacy_wallet throwing_manager) demo_argv))
     = Some (ParseHex demo_hex).
Proof.
  exact (@check_exception_propagates ParseHex EncodeSecret HexStr
           (fun _ => Ret (legacy_wallet throwing_manager))
           "wallet_dump_masterkey" "dir" demo_hex []
           (legacy_wallet throwing_manager) throwing_manager
           "Error unlocking wallet: some keys decrypt but not all. Your wallet file may be corrupt."
           eq_refl eq_refl eq_refl eq_refl).
Defined.

Lemma initialisation_order_witness :
  firstn 4 (trace (snd (run ParseHex EncodeSecret HexStr no_wallet demo_argv)))
  = [EvECC_Start;
     EvForceSetArg "-datadir" "dir";
     EvSelectParams "CBaseChainParams::REGTEST";
     EvSoftSetBoolArg "-fallbackfee" true].
Proof.
  exact (@initialisation_order ParseHex EncodeSecret HexStr no_wallet
           "wallet_dump_masterkey" "dir" demo_hex [] eq_refl).
Defined.

Lemma rejected_key_exit_witness :
  exit_code (run_on demo_wallet rejected_argv) = Some 2%Z
  /\ stderr (snd (run_on demo_wallet rejected_argv)) = [wrong_key]
  /\ stdout (snd (run_on demo_wallet rejected_argv)) = []
  /\ key_lines (snd (run_on demo_wallet rejected_argv)) = []
  /\ ecc_run false (trace (snd (run_on demo_wallet rejected_argv)))
     = Some false
  /\ vMasterKey (snd (run_on demo_wallet rejected_argv))
     = Some (repeat x00 (length (ParseHex other_hex))).
Proof.
  exact (@rejected_key_exit ParseHex EncodeSecret HexStr
           (fun _ => Ret demo_wallet)
           "wallet_dump_masterkey" "dir" other_hex [] demo_wallet
           demo_manager false eq_refl eq_refl eq_refl eq_refl).
Defined.

End MoreRuns.
